(** * AffinityGraph: retry executor, AI gateway post-processing and
      orchestration controller

    A shallow embedding of [services/geminiService.ts] (the retry/backoff
    executor [withRetry] and the gateway operations built on it) and of the
    controller in [App.tsx] (ingestion pipeline, deployment, reactive
    profiling), with the properties the specification states about them;
    then further properties of the same code and of the file reading of
    [components/DataUploader.tsx].

    Conventions of the embedding.
    - A JavaScript object used as a record or as a dictionary is a
      [gmap string json]; object spread [{...a, k: v}] is [<[k:=v]> a] and
      [{...a, ...b}] is [b ∪ a] (the later spread wins).  The map holds the
      own properties of the object; a spread and [JSON.parse] define own
      properties whatever the key, while an assignment [m[k] = v] with the key
      [__proto__] reaches the setter of [Object.prototype] and adds none.
    - [async] code is run in a small state-and-exception monad [M]; the
      external world (the hosted model, the clock, the passing of time) is an
      abstract state [W] threaded through every call.
    - JSON numbers are carried as [Z]; no arithmetic is done on them. *)

From Stdlib Require Import ZArith Lia String Ascii List Bool.
From stdpp Require Import base option list gmap strings.

#[local] Set Warnings "-register-all,-clear-no-such-hyp".
#[local] Open Scope string_scope.
#[local] Open Scope list_scope.

(* ===================================================================== *)
(** * Part I: definitions                                                 *)
(* ===================================================================== *)

(** ** JavaScript strings: [toLowerCase] and [includes] *)

Definition lower_ascii (c : ascii) : ascii :=
  let n := nat_of_ascii c in
  if Nat.leb 65 n && Nat.leb n 90 then ascii_of_nat (n + 32) else c.

Fixpoint toLowerCase (s : string) : string :=
  match s with
  | EmptyString => EmptyString
  | String c s' => String (lower_ascii c) (toLowerCase s')
  end.

(** [s.includes(sub)]: [sub] occurs in [s] at some offset. *)
Fixpoint includes (s sub : string) : bool :=
  String.prefix sub s ||
  match s with
  | EmptyString => false
  | String _ s' => includes s' sub
  end.

(** ** JSON values *)

Inductive json :=
| JNull
| JBool (b : bool)
| JNum (n : Z)
| JStr (s : string)
| JArr (l : list json)
| JObj (o : gmap string json).

(** ** Thrown values

    [QuotaError m] is [new QuotaError(m)] (geminiService.ts lines 5-10);
    [Other m] is any other thrown value, [m] being its [message] property
    when it has one ([error?.message]). *)

Inductive thrown :=
| QuotaError (message : string)
| Other (message : option string).

Definition instanceof_QuotaError (e : thrown) : bool :=
  match e with QuotaError _ => true | Other _ => false end.

Definition message_of (e : thrown) : option string :=
  match e with QuotaError m => Some m | Other m => m end.

(** [error?.message?.toLowerCase() || ""] *)
Definition errorMessage (e : thrown) : string :=
  match message_of e with
  | Some m => toLowerCase m
  | None => ""
  end.

Definition isRateLimit (e : thrown) : bool :=
  includes (errorMessage e) "429" ||
  includes (errorMessage e) "resource_exhausted" ||
  includes (errorMessage e) "quota".

Definition quota_message : string := "Gemini API Quota Exceeded.".

(** ** Observable events

    Ghost instrumentation: what the specification counts (attempts, awaited
    delays, gateway operations entered). *)

Inductive gateway_op :=
| OpCampaignManifest | OpDomainDNA | OpSegments | OpRecommendations
| OpPersona | OpFriction | OpReviews.

Inductive event :=
| EvAttempt (attempt : Z)
| EvDelay (ms : Z)
| EvInvoke (op : gateway_op).

Definition attempt_of (e : event) : option Z :=
  match e with EvAttempt a => Some a | _ => None end.

Definition delay_of (e : event) : option Z :=
  match e with EvDelay ms => Some ms | _ => None end.

Definition invoked_of (e : event) : option gateway_op :=
  match e with EvInvoke op => Some op | _ => None end.

Definition attempts (tr : list event) : list Z := omap attempt_of tr.
Definition delays (tr : list event) : list Z := omap delay_of tr.
Definition invoked (tr : list event) : list gateway_op := omap invoked_of tr.

(** ** Controller state (the [useState] cells of [App] and [localStorage]) *)

Inductive ProgressStep := idle | parsing | scrubbing | sampling | analyzing.
Inductive ErrorType := quota | general.

(** A callback scheduled with [setTimeout] and not awaited. *)
Inductive timer_action := ClearDeploymentToast.

Record App := mkApp {
  error : option (ErrorType * string);
  deploymentToast : option json;
  learnedContext : option (gmap string json);
  segments : list (gmap string json);
  activeReviews : json;
  selectedSegmentId : option json;
  recommendations : json;
  loading : bool;
  progressStep : ProgressStep;
  logs : list string;
  localStorage : gmap string string;
  timers : list (Z * timer_action)
}.

Definition with_error (v : option (ErrorType * string)) (a : App) : App :=
  mkApp v (deploymentToast a) (learnedContext a) (segments a) (activeReviews a)
    (selectedSegmentId a) (recommendations a) (loading a) (progressStep a)
    (logs a) (localStorage a) (timers a).

Definition with_deploymentToast (v : option json) (a : App) : App :=
  mkApp (error a) v (learnedContext a) (segments a) (activeReviews a)
    (selectedSegmentId a) (recommendations a) (loading a) (progressStep a)
    (logs a) (localStorage a) (timers a).

Definition with_learnedContext (v : option (gmap string json)) (a : App) : App :=
  mkApp (error a) (deploymentToast a) v (segments a) (activeReviews a)
    (selectedSegmentId a) (recommendations a) (loading a) (progressStep a)
    (logs a) (localStorage a) (timers a).

Definition with_segments (v : list (gmap string json)) (a : App) : App :=
  mkApp (error a) (deploymentToast a) (learnedContext a) v (activeReviews a)
    (selectedSegmentId a) (recommendations a) (loading a) (progressStep a)
    (logs a) (localStorage a) (timers a).

Definition with_activeReviews (v : json) (a : App) : App :=
  mkApp (error a) (deploymentToast a) (learnedContext a) (segments a) v
    (selectedSegmentId a) (recommendations a) (loading a) (progressStep a)
    (logs a) (localStorage a) (timers a).

Definition with_selectedSegmentId (v : option json) (a : App) : App :=
  mkApp (error a) (deploymentToast a) (learnedContext a) (segments a)
    (activeReviews a) v (recommendations a) (loading a) (progressStep a)
    (logs a) (localStorage a) (timers a).

Definition with_recommendations (v : json) (a : App) : App :=
  mkApp (error a) (deploymentToast a) (learnedContext a) (segments a)
    (activeReviews a) (selectedSegmentId a) v (loading a) (progressStep a)
    (logs a) (localStorage a) (timers a).

Definition with_loading (v : bool) (a : App) : App :=
  mkApp (error a) (deploymentToast a) (learnedContext a) (segments a)
    (activeReviews a) (selectedSegmentId a) (recommendations a) v
    (progressStep a) (logs a) (localStorage a) (timers a).

Definition with_progressStep (v : ProgressStep) (a : App) : App :=
  mkApp (error a) (deploymentToast a) (learnedContext a) (segments a)
    (activeReviews a) (selectedSegmentId a) (recommendations a) (loading a) v
    (logs a) (localStorage a) (timers a).

Definition with_logs (v : list string) (a : App) : App :=
  mkApp (error a) (deploymentToast a) (learnedContext a) (segments a)
    (activeReviews a) (selectedSegmentId a) (recommendations a) (loading a)
    (progressStep a) v (localStorage a) (timers a).

Definition with_localStorage (v : gmap string string) (a : App) : App :=
  mkApp (error a) (deploymentToast a) (learnedContext a) (segments a)
    (activeReviews a) (selectedSegmentId a) (recommendations a) (loading a)
    (progressStep a) (logs a) v (timers a).

Definition with_timers (v : list (Z * timer_action)) (a : App) : App :=
  mkApp (error a) (deploymentToast a) (learnedContext a) (segments a)
    (activeReviews a) (selectedSegmentId a) (recommendations a) (loading a)
    (progressStep a) (logs a) (localStorage a) v.

(** ** The execution monad

    A run has the external world, the controller state and the event trace;
    a computation either returns or throws. *)

Section Model.

Context {W : Type}.

Record St := mkSt { world : W; app : App; trace : list event }.

Definition M (A : Type) : Type := St -> (thrown + A) * St.

Definition ret {A} (x : A) : M A := fun st => (inr x, st).

Definition throw {A} (e : thrown) : M A := fun st => (inl e, st).

Definition bind {A B} (c : M A) (k : A -> M B) : M B :=
  fun st =>
    match c st with
    | (inr x, st') => k x st'
    | (inl e, st') => (inl e, st')
    end.

(** [try { body } catch (err) { handler err }] *)
Definition try_catch {A} (body : M A) (handler : thrown -> M A) : M A :=
  fun st =>
    match body st with
    | (inr x, st') => (inr x, st')
    | (inl e, st') => handler e st'
    end.

(** [try { body } finally { fin }]: [fin] runs on both exits and the
    outcome of [body] is kept (no [fin] of the source throws or returns). *)
Definition try_finally {A} (body : M A) (fin : M unit) : M A :=
  fun st =>
    match body st with
    | (r, st') =>
        match fin st' with
        | (inr _, st'') => (r, st'')
        | (inl e, st'') => (inl e, st'')
        end
    end.

Definition emit (e : event) : M unit :=
  fun st => (inr tt, mkSt (world st) (app st) (trace st ++ [e])).

Definition update (f : App -> App) : M unit :=
  fun st => (inr tt, mkSt (world st) (f (app st)) (trace st)).

Definition read {A} (f : App -> A) : M A :=
  fun st => (inr (f (app st)), st).

(** A computation of the outside world alone, run inside [M]. *)
Definition external {A} (f : W -> (thrown + A) * W) : M A :=
  fun st =>
    match f (world st) with
    | (r, w') => (r, mkSt w' (app st) (trace st))
    end.

End Model.

Arguments St : clear implicits.
Arguments M : clear implicits.

Notation "'do' x <- c ; k" := (bind c (fun x => k))
  (at level 10, x name, c at level 100, k at level 200).

(** ** The retry/backoff executor (geminiService.ts lines 12-36) *)

Section Retry.

Context {W T : Type}.

(** [await new Promise(resolve => setTimeout(resolve, delay))]: the world
    once [delay] milliseconds have gone by. *)
Variable elapse : Z -> W -> W.

(** The wrapped operation [fn]: each call consumes the world and either
    resolves or rejects. *)
Variable fn : W -> (thrown + T) * W.

(** The [for] loop entered with [attempt] and [remaining] iterations to go
    ([remaining] is [maxRetries + 1 - attempt], so [remaining = 0] is the
    loop condition [attempt <= maxRetries] failing, after which line 35
    throws [lastError]). *)
Fixpoint retry_from (maxRetries : Z) (remaining : nat) (attempt : Z)
    (lastError : thrown) : M W T :=
  match remaining with
  | O => throw lastError
  | S remaining' =>
      do _ <- emit (EvAttempt attempt);
      try_catch (external fn) (fun error =>
        if isRateLimit error then
          if (attempt <? maxRetries)%Z then
            let delay := (2 ^ attempt * 2000)%Z in
            do _ <- emit (EvDelay delay);
            do _ <- external (fun w => (inr tt, elapse delay w));
            retry_from maxRetries remaining' (attempt + 1)%Z error
          else throw (QuotaError quota_message)
        else throw error)
  end.

(** [lastError] starts out [undefined]. *)
Definition withRetry (maxRetries : Z) : M W T :=
  retry_from maxRetries (Z.to_nat (maxRetries + 1)) 0%Z (Other None).

Definition withRetry_default : M W T := withRetry 3%Z.

End Retry.

(** ** Systematic sampling (App.tsx lines 161-162) *)

(** [Math.max(1, Math.floor(count / 50))] *)
Definition stride_of (count : nat) : nat := Nat.max 1 (count / 50).

(** [xs.filter((_, i) => p(i))], the index starting at [i]. *)
Fixpoint filter_index {A} (p : nat -> bool) (i : nat) (xs : list A) : list A :=
  match xs with
  | [] => []
  | x :: xs' =>
      if p i then x :: filter_index p (S i) xs' else filter_index p (S i) xs'
  end.

Definition systematic_sample {A} (cleanedData : list A) : list A :=
  let stride := stride_of (length cleanedData) in
  take 50 (filter_index (fun i => Nat.eqb (i mod stride) 0) 0 cleanedData).

(** [ceil(n / d)] on naturals. *)
Definition ceil_div (n d : nat) : nat := (n + d - 1) / d.

(** ** The AI gateway (geminiService.ts lines 50-309) *)

(** What a request to the model is built from; the prompt text and the
    response schema are functions of it. *)
Inductive request :=
| ReqCampaignManifest (segment : gmap string json)
    (context : option (gmap string json))
| ReqDomainDNA (dataSample : list json) (headers : list string)
| ReqSegments (dataSample : list json) (headers : list string)
    (context : option (gmap string json))
| ReqRecommendations (segs : list (gmap string json))
    (context : option (gmap string json))
| ReqPersona (segment : gmap string json)
    (context : option (gmap string json))
| ReqFriction (segment : gmap string json) (reviews : json)
| ReqReviews (segs : list (gmap string json))
    (context : option (gmap string json)).

Definition op_of (r : request) : gateway_op :=
  match r with
  | ReqCampaignManifest _ _ => OpCampaignManifest
  | ReqDomainDNA _ _ => OpDomainDNA
  | ReqSegments _ _ _ => OpSegments
  | ReqRecommendations _ _ => OpRecommendations
  | ReqPersona _ _ => OpPersona
  | ReqFriction _ _ => OpFriction
  | ReqReviews _ _ => OpReviews
  end.

(** The parsed Domain-DNA response, read at the shape its [responseSchema]
    declares: [dna_props] are the own properties of [dnaResult] (what
    [...dnaResult] copies) and [dna_behavioralWeights] is [Some items] when
    [Array.isArray(dnaResult.behavioralWeights)], an item being its
    ([feature], [weight]). *)
Record RawDNA := mkRawDNA {
  dna_props : gmap string json;
  dna_behavioralWeights : option (list (string * json))
}.

(** One element of the parsed Discover-Segments response, likewise:
    [raw_affinityScores] is [Some items] when
    [Array.isArray(s.affinityScores)], an item being its ([key], [value]). *)
Record RawSegment := mkRawSegment {
  raw_props : gmap string json;
  raw_affinityScores : option (list (string * json))
}.

(** [m[k] = v] on an object created as [{}]: an own property, except for
    the key [__proto__], which is the accessor of [Object.prototype]: its
    setter changes the prototype at most and defines no own property. *)
Definition assign (k : string) (v : json) (m : gmap string json)
    : gmap string json :=
  if String.eqb k "__proto__" then m else <[k := v]> m.

(** [const m = {}; items.forEach(it => { m[it.key] = it.value; })] *)
Definition fromPairs (items : list (string * json)) : gmap string json :=
  foldl (fun m it => assign it.1 it.2 m) ∅ items.

(** The mapping rebuilt under the [Array.isArray] guard. *)
Definition rebuilt (items : option (list (string * json))) : gmap string json :=
  match items with
  | Some l => fromPairs l
  | None => ∅
  end.

(** [{ ...dnaResult, behavioralWeights, lastLearnedDate, version }] *)
Definition buildDNA (dnaResult : RawDNA) (now : string) : gmap string json :=
  <["version" := JStr "2.4.0-PRO"]>
    (<["lastLearnedDate" := JStr now]>
      (<["behavioralWeights" := JObj (rebuilt (dna_behavioralWeights dnaResult))]>
        (dna_props dnaResult))).

(** [{ ...s, affinityScores, status: 'Discovery', lastUpdated }] *)
Definition stampSegment (s : RawSegment) (now : string) : gmap string json :=
  <["lastUpdated" := JStr now]>
    (<["status" := JStr "Discovery"]>
      (<["affinityScores" := JObj (rebuilt (raw_affinityScores s))]>
        (raw_props s))).

Section Gateway.

Context {W : Type}.

Variable elapse : Z -> W -> W.

(** [ai.models.generateContent(...)] followed by reading [response.text]:
    resolves with the text or rejects with an error of the SDK (never a
    [QuotaError], a class of this module), given by its message. *)
Variable generateContent : request -> W -> (option string + string) * W.

(** [JSON.parse]: the value, or the message of the [SyntaxError]. *)
Variable JSON_parse : string -> option string + json.

(** [JSON.parse] of a Domain-DNA and of a Discover-Segments response, the
    value read at the declared shape. *)
Variable parse_dna : string -> option string + RawDNA.
Variable parse_segments : string -> option string + list RawSegment.

(** [new Date().toISOString()] *)
Variable toISOString_now : W -> string * W.

(** The body shared by the operations: request, then post-process the text. *)
Definition call_model {A} (r : request)
    (post : string -> W -> (thrown + A) * W) : W -> (thrown + A) * W :=
  fun w =>
    match generateContent r w with
    | (inl m, w') => (inl (Other m), w')
    | (inr text, w') => post text w'
    end.

Definition parsed (text : string) (w : W) : (thrown + json) * W :=
  match JSON_parse text with
  | inl m => (inl (Other m), w)
  | inr v => (inr v, w)
  end.

(** [results.map(s => ...)]: one clock reading per element, in order. *)
Fixpoint stamp_all (results : list RawSegment) (w : W)
    : list (gmap string json) * W :=
  match results with
  | [] => ([], w)
  | s :: rest =>
      let (now, w1) := toISOString_now w in
      let (out, w2) := stamp_all rest w1 in
      (stampSegment s now :: out, w2)
  end.

Definition gateway {A} (r : request)
    (post : string -> W -> (thrown + A) * W) : M W A :=
  do _ <- emit (EvInvoke (op_of r));
  withRetry_default elapse (call_model r post).

Definition generateCampaignManifest (segment : gmap string json)
    (context : option (gmap string json)) : M W json :=
  gateway (ReqCampaignManifest segment context) parsed.

Definition synthesizeDomainDNA (dataSample : list json) (headers : list string)
    (existingContext : option (gmap string json)) : M W (gmap string json) :=
  gateway (ReqDomainDNA (take 5 dataSample) headers) (fun text w =>
    match parse_dna text with
    | inl m => (inl (Other m), w)
    | inr dnaResult =>
        let (now, w') := toISOString_now w in
        (inr (buildDNA dnaResult now), w')
    end).

Definition discoverSegments (dataSample : list json) (headers : list string)
    (context : option (gmap string json)) : M W (list (gmap string json)) :=
  gateway (ReqSegments (take 15 dataSample) headers context) (fun text w =>
    match parse_segments text with
    | inl m => (inl (Other m), w)
    | inr results =>
        let (out, w') := stamp_all results w in
        (inr out, w')
    end).

Definition generateMerchandisingRecommendations
    (segs : list (gmap string json)) (context : option (gmap string json))
    : M W json :=
  gateway (ReqRecommendations segs context) parsed.

Definition getPersonaDetails (segment : gmap string json)
    (context : option (gmap string json)) : M W json :=
  gateway (ReqPersona segment context) parsed.

Definition analyzeFriction (segment : gmap string json) (reviews : json)
    : M W json :=
  gateway (ReqFriction segment reviews) parsed.

Definition generateContextualReviews (segs : list (gmap string json))
    (context : option (gmap string json)) : M W json :=
  gateway (ReqReviews segs context) parsed.

End Gateway.

(** ** The orchestration controller (App.tsx) *)

(** [a === b] on property values ([None] is [undefined]).  Identity of
    arrays and objects is not tracked; the schema makes ids strings. *)
Definition strict_eq (a b : option json) : bool :=
  match a, b with
  | None, None => true
  | Some JNull, Some JNull => true
  | Some (JBool x), Some (JBool y) => Bool.eqb x y
  | Some (JNum x), Some (JNum y) => Z.eqb x y
  | Some (JStr x), Some (JStr y) => String.eqb x y
  | _, _ => false
  end.

(** [segments.find(s => s.id === id)] *)
Definition find_by_id (id : option json) (segs : list (gmap string json))
    : option (gmap string json) :=
  List.find (fun s => strict_eq (s !! "id") id) segs.

(** [segments.find(s => s.id === selectedSegmentId) || segments[0]]
    (lines 84-86). *)
Definition activeSegment (a : App) : option (gmap string json) :=
  match find_by_id (selectedSegmentId a) (segments a) with
  | Some s => Some s
  | None => head (segments a)
  end.

(** [prev.slice(-4)] *)
Definition slice_last4 {A} (l : list A) : list A := drop (length l - 4) l.

(** [localStorage.setItem(k, v)] *)
Definition setItem (k v : string) (a : App) : App :=
  with_localStorage (<[k := v]> (localStorage a)) a.

Section Controller.

Context {W : Type}.

Variable elapse : Z -> W -> W.
Variable generateContent : request -> W -> (option string + string) * W.
Variable JSON_parse : string -> option string + json.
Variable parse_dna : string -> option string + RawDNA.
Variable parse_segments : string -> option string + list RawSegment.
Variable toISOString_now : W -> string * W.

(** [new Date().toLocaleTimeString()] *)
Variable toLocaleTimeString_now : W -> string * W.

(** [JSON.stringify] and the text a template literal gives a property
    value ([None] is [undefined]). *)
Variable JSON_stringify : json -> string.
Variable interpolate : option json -> string.

Abbreviation generateCampaignManifest' :=
  (generateCampaignManifest elapse generateContent JSON_parse).
Abbreviation synthesizeDomainDNA' :=
  (synthesizeDomainDNA elapse generateContent parse_dna toISOString_now).
Abbreviation discoverSegments' :=
  (discoverSegments elapse generateContent parse_segments toISOString_now).
Abbreviation generateContextualReviews' :=
  (generateContextualReviews elapse generateContent JSON_parse).
Abbreviation generateMerchandisingRecommendations' :=
  (generateMerchandisingRecommendations elapse generateContent JSON_parse).

(** Lines 70-72. *)
Definition addLog (msg : string) : M W unit :=
  do now <- external (fun w =>
              let (t, w') := toLocaleTimeString_now w in (inr t, w'));
  update (fun a =>
    with_logs (slice_last4 (logs a) ++
               [String.append "[" (String.append now (String.append "] " msg))])
              a).

(** [s.id === id ? { ...s, ...updates, manifest } : s] *)
Definition deploy_into (id : string) (updates : gmap string json)
    (manifest : json) (s : gmap string json) : gmap string json :=
  if strict_eq (s !! "id") (Some (JStr id))
  then <["manifest" := manifest]> (updates ∪ s)
  else s.

(** [s.id === id ? { ...s, ...updates } : s] *)
Definition update_into (id : string) (updates : gmap string json)
    (s : gmap string json) : gmap string json :=
  if strict_eq (s !! "id") (Some (JStr id)) then updates ∪ s else s.

(** Lines 94-110.  [segments] and [learnedContext] are the values of the
    render the handler was created in. *)
Definition handleSegmentUpdate (id : string) (updates : gmap string json)
    : M W unit :=
  do segs <- read segments;
  do ctx <- read learnedContext;
  match strict_eq (updates !! "status") (Some (JStr "Active Strategy")),
        find_by_id (Some (JStr id)) segs with
  | true, Some seg =>
      do _ <- addLog (String.append
                "DEPLOYMENT INITIATED: Synthesizing Tactical Manifest for "
                (String.append (interpolate (seg !! "name")) "..."));
      try_catch
        (do manifest <- generateCampaignManifest' seg ctx;
         do _ <- update (fun a =>
                   with_segments (deploy_into id updates manifest <$> segments a) a);
         do _ <- addLog (String.append "DEPLOYMENT COMPLETE: "
                   (String.append (interpolate (seg !! "name"))
                      " manifest loaded into Tactical Overlay."));
         do _ <- update (with_deploymentToast (seg !! "name"));
         update (fun a =>
           with_timers (timers a ++ [(3000%Z, ClearDeploymentToast)]) a))
        (fun err => addLog "DEPLOYMENT FAILED: AI synthesis interrupted.")
  | _, _ =>
      update (fun a => with_segments (update_into id updates <$> segments a) a)
  end.

(** The [catch] blocks of lines 118-122 and 176-180. *)
Definition surface_quota (err : thrown) : M W unit :=
  match err with
  | QuotaError message => update (with_error (Some (quota, message)))
  | Other _ => ret tt
  end.

(** Lines 112-126. *)
Definition fetchInsights (targetSegments : list (gmap string json))
    (reviews : json) (ctx : option (gmap string json)) : M W unit :=
  do _ <- update (with_loading true);
  do _ <- update (with_error None);
  try_finally
    (try_catch
       (do recs <- generateMerchandisingRecommendations' targetSegments ctx;
        update (with_recommendations recs))
       surface_quota)
    (do _ <- update (with_loading false);
     update (with_progressStep idle)).

(** Lines 154-184. *)
Definition handleCustomDataLoaded (cleanedData : list json)
    (headers : list string) : M W unit :=
  do ctx <- read learnedContext;
  do _ <- update (with_loading true);
  do _ <- update (with_error None);
  do _ <- addLog "Ingesting telemetry stream...";
  try_finally
    (try_catch
       (do _ <- update (with_progressStep parsing);
        let sample := systematic_sample cleanedData in
        do newDna <- synthesizeDomainDNA' sample headers ctx;
        do _ <- update (with_learnedContext (Some newDna));
        do _ <- update (setItem "neural_dna" (JSON_stringify (JObj newDna)));
        do _ <- update (with_progressStep analyzing);
        do discovered <- discoverSegments' sample headers (Some newDna);
        do contextReviews <- generateContextualReviews' discovered (Some newDna);
        do _ <- update (with_segments discovered);
        do _ <- update (with_activeReviews contextReviews);
        do _ <- update (setItem "affinity_segments"
                          (JSON_stringify (JArr (JObj <$> discovered))));
        do _ <- update (setItem "active_reviews" (JSON_stringify contextReviews));
        do _ <- match discovered with
                | [] => throw (Other (Some
                          "Cannot read properties of undefined (reading 'id')"))
                | first :: _ => update (with_selectedSegmentId (first !! "id"))
                end;
        do _ <- addLog (String.append "Synthesis complete. Maturity: "
                  (String.append (interpolate (newDna !! "maturityIndex")) "%"));
        fetchInsights discovered contextReviews (Some newDna))
       surface_quota)
    (do _ <- update (with_loading false);
     update (with_progressStep idle)).

End Controller.

(** ** Reactive profiling (App.tsx lines 132-152)

    The effect and its timer as a machine over virtual time.  An event
    carries the time it happens at; a pending timer that is due by then runs
    first. *)

Inductive AppView := landing | dashboard.

(** What the timer callback closes over. *)
Record Captured := mkCaptured {
  cap_segment : gmap string json;
  cap_context : option (gmap string json);
  cap_reviews : json
}.

Record Prof := mkProf {
  p_now : Z;
  p_view : AppView;
  p_segments : list (gmap string json);
  p_selectedSegmentId : option json;
  p_activeReviews : json;
  p_learnedContext : option (gmap string json);
  p_personaDetails : option json;
  p_frictionData : option json;
  p_profilingLoading : bool;
  p_error : option (ErrorType * string);
  (** the pending [setTimeout]: when it is due and its closure *)
  p_timer : option (Z * Captured);
  (** [Promise.all] pairs not yet settled, by the segment they are for *)
  p_inflight : list (gmap string json);
  (** gateway operations called so far *)
  p_issued : list request
}.

Inductive prof_event :=
| Select (t : Z) (id : option json)
| Tick (t : Z)
| Settle (t : Z) (k : nat) (outcome : thrown + json * json).

Definition p_activeSegment (s : Prof) : option (gmap string json) :=
  match find_by_id (p_selectedSegmentId s) (p_segments s) with
  | Some x => Some x
  | None => head (p_segments s)
  end.

(** The timer callback starts (lines 135-140): both operations are called
    with the captured segment, and the pair is awaited. *)
Definition fire (c : Captured) (s : Prof) : Prof :=
  mkProf (p_now s) (p_view s) (p_segments s) (p_selectedSegmentId s)
    (p_activeReviews s) (p_learnedContext s) (p_personaDetails s)
    (p_frictionData s) (p_profilingLoading s) (p_error s)
    None
    (p_inflight s ++ [cap_segment c])
    (p_issued s ++ [ReqPersona (cap_segment c) (cap_context c);
                    ReqFriction (cap_segment c) (cap_reviews c)]).

(** Time moves on to [t]. *)
Definition advance (t : Z) (s : Prof) : Prof :=
  let s' :=
    match p_timer s with
    | Some (due, c) => if (due <=? t)%Z then fire c s else s
    | None => s
    end in
  mkProf (Z.max (p_now s') t) (p_view s') (p_segments s') (p_selectedSegmentId s')
    (p_activeReviews s') (p_learnedContext s') (p_personaDetails s')
    (p_frictionData s') (p_profilingLoading s') (p_error s')
    (p_timer s') (p_inflight s') (p_issued s').

(** The effect re-runs: the previous cleanup ([clearTimeout(timer)]), then
    the body (lines 133-136, 150). *)
Definition run_effect (s : Prof) : Prof :=
  match p_activeSegment s, p_view s with
  | Some seg, dashboard =>
      mkProf (p_now s) (p_view s) (p_segments s) (p_selectedSegmentId s)
        (p_activeReviews s) (p_learnedContext s) (p_personaDetails s)
        (p_frictionData s) true (p_error s)
        (Some ((p_now s + 500)%Z,
               mkCaptured seg (p_learnedContext s) (p_activeReviews s)))
        (p_inflight s) (p_issued s)
  | _, _ =>
      mkProf (p_now s) (p_view s) (p_segments s) (p_selectedSegmentId s)
        (p_activeReviews s) (p_learnedContext s) (p_personaDetails s)
        (p_frictionData s) (p_profilingLoading s) (p_error s)
        None (p_inflight s) (p_issued s)
  end.

(** [setSelectedSegmentId(id)]: a state change re-renders and re-runs the
    effect; setting the value already held does neither. *)
Definition select (id : option json) (s : Prof) : Prof :=
  if strict_eq id (p_selectedSegmentId s) then s
  else
    run_effect
      (mkProf (p_now s) (p_view s) (p_segments s) id
         (p_activeReviews s) (p_learnedContext s) (p_personaDetails s)
         (p_frictionData s) (p_profilingLoading s) (p_error s)
         (p_timer s) (p_inflight s) (p_issued s)).

(** The awaited pair settles (lines 141-149). *)
Definition settle (k : nat) (outcome : thrown + json * json) (s : Prof) : Prof :=
  match p_inflight s !! k with
  | None => s
  | Some _ =>
      let persona :=
        match outcome with
        | inr (persona, _) => Some persona
        | inl _ => p_personaDetails s
        end in
      let friction :=
        match outcome with
        | inr (_, friction) => Some friction
        | inl _ => p_frictionData s
        end in
      let err :=
        match outcome with
        | inl (QuotaError message) => Some (quota, message)
        | _ => p_error s
        end in
      mkProf (p_now s) (p_view s) (p_segments s) (p_selectedSegmentId s)
        (p_activeReviews s) (p_learnedContext s) persona friction false err
        (p_timer s) (delete k (p_inflight s)) (p_issued s)
  end.

Definition prof_step (s : Prof) (e : prof_event) : Prof :=
  match e with
  | Select t id => select id (advance t s)
  | Tick t => advance t s
  | Settle t k outcome => settle k outcome (advance t s)
  end.

Definition prof_run (s : Prof) (es : list prof_event) : Prof :=
  foldl prof_step s es.

(** What a render of [App] reads of the active segment before anything
    else of it (lines 186 and 252-256): on the landing view nothing; on the
    dashboard [activeSegment.status] and [activeSegment.name], and reading a
    property of [undefined] throws a [TypeError]. *)
Inductive rendered :=
| LandingView
| Diagnostics (deployed : bool) (name : option json).

Definition render (view : AppView) (a : App) : thrown + rendered :=
  match view with
  | landing => inr LandingView
  | dashboard =>
      match activeSegment a with
      | None =>
          inl (Other (Some
                 "Cannot read properties of undefined (reading 'status')"))
      | Some seg =>
          inr (Diagnostics
                 (strict_eq (seg !! "status") (Some (JStr "Active Strategy")))
                 (seg !! "name"))
      end
  end.

(** The policy the specification asks for: a result that arrives for a
    segment that is no longer the active one changes neither profile cell. *)
Definition discards_stale (s : Prof) (t : Z) (k : nat) (r : json * json) : Prop :=
  forall seg,
    p_inflight (advance t s) !! k = Some seg ->
    p_activeSegment (advance t s) <> Some seg ->
    p_personaDetails (prof_step s (Settle t k (inr r))) = p_personaDetails s /\
    p_frictionData (prof_step s (Settle t k (inr r))) = p_frictionData s.

(** ** Auxiliary notions used in the statements *)

(** The schedule the specification gives the executor when every attempt is
    rate limited: attempts [attempt], [attempt + 1], ... with a wait of
    [2^attempt * 2000] after each but the last. *)
Fixpoint backoff_trace (remaining : nat) (attempt : Z) : list event :=
  match remaining with
  | O => []
  | S O => [EvAttempt attempt]
  | S remaining' =>
      EvAttempt attempt :: EvDelay (2 ^ attempt * 2000)%Z ::
      backoff_trace remaining' (attempt + 1)%Z
  end.

(** [fn] is rejected with a rate-limit-classified error whenever it is
    called. *)
Definition always_rate_limited {W T} (fn : W -> (thrown + T) * W) : Prop :=
  forall w, exists e, (fn w).1 = inl e /\ isRateLimit e = true.

(** Starting in [w] at loop index [attempt], [fn] is called [k + 1] times
    and rejected with a rate-limit-classified error each time, the wait of
    the loop, [2^attempt * 2000], passing between one call and the next;
    [w'] is the world the last rejection leaves. *)
Inductive rate_limited_through {W T : Type} (elapse : Z -> W -> W)
    (fn : W -> (thrown + T) * W) : nat -> Z -> W -> W -> Prop :=
| limited_last attempt w e w' :
    fn w = (inl e, w') ->
    isRateLimit e = true ->
    rate_limited_through elapse fn 0 attempt w w'
| limited_more k attempt w e w1 w' :
    fn w = (inl e, w1) ->
    isRateLimit e = true ->
    rate_limited_through elapse fn k (attempt + 1)%Z
      (elapse (2 ^ attempt * 2000)%Z w1) w' ->
    rate_limited_through elapse fn (S k) attempt w w'.

(** The text of the original error is not present in the thrown message. *)
Definition original_text_absent (original thrown_message : string) : Prop :=
  includes thrown_message original = false.

(** [fn] never rejects with a [QuotaError]. *)
Definition never_quota {W T} (fn : W -> (thrown + T) * W) : Prop :=
  forall w e, (fn w).1 = inl e -> instanceof_QuotaError e = false.

(** A controller state with nothing in it, to run a gateway operation on
    its own. *)
Definition blank_app : App :=
  mkApp None None None [] JNull None JNull false idle [] ∅ [].

(** The operation [g] started in the world [w], looked at in isolation. *)
Definition isolated {W A} (g : M W A) (w : W) : (thrown + A) * St W :=
  g (mkSt w blank_app []).

(** What a computation that only talks to the world does to a run: the
    controller state is untouched and the trace grows. *)
Definition world_only {W A} (g : M W A) : Prop :=
  forall st,
    g st = ((isolated g (world st)).1,
            mkSt (world (isolated g (world st)).2) (app st)
                 (trace st ++ trace (isolated g (world st)).2)).

(** A post-processing step that throws no [QuotaError]. *)
Definition post_never_quota {W A} (post : string -> W -> (thrown + A) * W) : Prop :=
  forall text w e, (post text w).1 = inl e -> instanceof_QuotaError e = false.


(** A pending timer that is not yet due at [t]. *)
Definition not_due (t : Z) (s : Prof) : Prop :=
  match p_timer s with
  | Some (due, _) => (t < due)%Z
  | None => True
  end.

(** Two segments, the first selected, nothing pending. *)
Definition segA : gmap string json := {["id" := JStr "a"]}.
Definition segB : gmap string json := {["id" := JStr "b"]}.

Definition prof0 : Prof :=
  mkProf 0 dashboard [segA; segB] (Some (JStr "a")) JNull None
    None None false None None [] [].

(** [b] is selected and its request pair goes out at 500; at 600 the
    selection goes back to [a], the pair for [b] still in flight. *)
Definition prof_stale : Prof :=
  prof_run prof0
    [Select 0 (Some (JStr "b")); Tick 500; Select 600 (Some (JStr "a"))].

(** Whether the prompt of a request can be built.  The template of
    [getPersonaDetails] reads [segment.kpis.retentionLikelihood] (line 256)
    and that of [analyzeFriction] calls [reviews.map(r => r.text)] (line
    275): they throw a [TypeError], before anything is sent, when [kpis] is
    [undefined] or [null], and when [reviews] is not an array or holds a
    [null].  The other templates read own properties of their arguments
    only. *)
Definition prompt_builds (r : request) : bool :=
  match r with
  | ReqPersona segment _ =>
      match segment !! "kpis" with
      | None | Some JNull => false
      | Some _ => true
      end
  | ReqFriction _ reviews =>
      match reviews with
      | JArr l =>
          forallb (fun r => match r with JNull => false | _ => true end) l
      | _ => false
      end
  | _ => true
  end.

(** Two segments with the properties the prompts read, a list of reviews,
    and the runs of [prof0] and [prof_stale] on them. *)
Definition shopper (id name : string) (retention : Z) : gmap string json :=
  {[ "id" := JStr id; "name" := JStr name;
     "kpis" := JObj {[ "retentionLikelihood" := JNum retention ]};
     "affinityScores" := JObj {[ "price" := JNum 3 ]} ]}.

Definition loyalists : gmap string json := shopper "a" "Loyalists" 80.
Definition bargain_hunters : gmap string json :=
  shopper "b" "Bargain hunters" 35.

Definition demo_reviews : json :=
  JArr [JObj {[ "id" := JStr "r1"; "text" := JStr "slow checkout" ]}].

Definition prof_live : Prof :=
  mkProf 0 dashboard [loyalists; bargain_hunters] (Some (JStr "a"))
    demo_reviews None None None false None None [] [].

Definition prof_live_stale : Prof :=
  prof_run prof_live
    [Select 0 (Some (JStr "b")); Tick 500; Select 600 (Some (JStr "a"))].

(** ** A scripted world

    The world is the list of outcomes the model will give, one per request;
    time and the clock stand still. *)

Definition script : Type := list (option string + string).

Definition scripted_generateContent (r : request) (w : script)
    : (option string + string) * script :=
  match w with
  | [] => (inl (Some "fetch failed"), [])
  | o :: w' => (o, w')
  end.

Definition no_elapse (ms : Z) (w : script) : script := w.

Definition demo_JSON_parse (text : string) : option string + json :=
  if String.eqb text "" then inl (Some "Unexpected end of JSON input")
  else inr (JStr text).

Definition demo_parse_dna (text : string) : option string + RawDNA :=
  inr (mkRawDNA {["domainName" := JStr text]} (Some [("spend", JNum 7)])).

Definition demo_parse_segments (text : string) : option string + list RawSegment :=
  if String.eqb text "[]" then inr []
  else inr [mkRawSegment {["id" := JStr text]}
              (Some [("price", JNum 1); ("price", JNum 2)])].

Definition demo_clock (w : script) : string * script :=
  ("2026-01-01T00:00:00.000Z", w).

Definition demo_local_clock (w : script) : string * script := ("12:00:00", w).

Definition demo_stringify (v : json) : string := "<json>".

Definition demo_interpolate (v : option json) : string :=
  match v with Some (JStr x) => x | _ => "undefined" end.

Definition rate_limited : option string + string :=
  inl (Some "429 RESOURCE_EXHAUSTED: quota exceeded").

Definition demo_state (w : script) : St script := mkSt w blank_app [].

(** An operation that is always rate limited, and one that fails to parse. *)
Definition always_429 (w : unit) : (thrown + json) * unit :=
  (inl (Other (Some "got status: 429 Too Many Requests")), w).

Definition bad_json (w : unit) : (thrown + json) * unit :=
  (inl (Other (Some "Unexpected token < in JSON at position 0")), w).

(** An operation whose rate-limit error reads [Quota Exceeded.]. *)
Definition quota_echo (w : unit) : (thrown + json) * unit :=
  (inl (Other (Some "Quota Exceeded.")), w).


Definition demo_updates : gmap string json := {["status" := JStr "Active Strategy"]}.

Definition demo_app : App := with_segments [segA; segB] blank_app.

Definition demo_dna : gmap string json :=
  buildDNA (mkRawDNA {["domainName" := JStr "retail"]} (Some [("spend", JNum 7)]))
    "2026-01-01T00:00:00.000Z".

Definition demo_segment : gmap string json :=
  stampSegment
    (mkRawSegment {["id" := JStr "s1"]} (Some [("price", JNum 1); ("price", JNum 2)]))
    "2026-01-01T00:00:00.000Z".

Abbreviation demo_ingest :=
  (handleCustomDataLoaded no_elapse scripted_generateContent demo_JSON_parse
     demo_parse_dna demo_parse_segments demo_clock demo_local_clock
     demo_stringify demo_interpolate).

(** ** Further code of the controller and of the uploader *)

(** [a ?? d]: [a] unless it is [undefined] or [null]. *)
Definition coalesce (a : option json) (d : json) : json :=
  match a with
  | None => d
  | Some JNull => d
  | Some v => v
  end.

(** The element map of the initial segment store (App.tsx line 53):
    [{ ...s, patternStabilityIndex:
         s.patternStabilityIndex ?? s.confidenceScore ?? 85 }] *)
Definition initSegment (s : gmap string json) : gmap string json :=
  <["patternStabilityIndex" :=
      coalesce (s !! "patternStabilityIndex")
        (coalesce (s !! "confidenceScore") (JNum 85))]> s.

(** An operation whose world is the number of calls made so far: rejected
    as rate limited on its first [k] calls, resolved with [v] afterwards. *)
Definition flaky (k : nat) (v : json) (calls : nat) : (thrown + json) * nat :=
  if Nat.ltb calls k
  then (inl (Other (Some "429 Too Many Requests")), S calls)
  else (inr v, S calls).

(** *** The uploader (components/DataUploader.tsx lines 35-73)

    Strings are sequences of code units below 256. *)

(** White space as [String.prototype.trim] sees it, among those code units:
    tab, line feed, vertical tab, form feed, carriage return, space and
    no-break space. *)
Definition is_space (c : ascii) : bool :=
  let n := nat_of_ascii c in
  (Nat.leb 9 n && Nat.leb n 13) || Nat.eqb n 32 || Nat.eqb n 160.

Fixpoint trimStart (s : string) : string :=
  match s with
  | EmptyString => EmptyString
  | String c s' => if is_space c then trimStart s' else s
  end.

Fixpoint trimEnd (s : string) : string :=
  match s with
  | EmptyString => EmptyString
  | String c s' =>
      match trimEnd s' with
      | EmptyString => if is_space c then EmptyString else String c EmptyString
      | t => String c t
      end
  end.

Definition trim (s : string) : string := trimEnd (trimStart s).

(** [s.split(sep)] for a separator of one character. *)
Fixpoint split (sep : ascii) (s : string) : list string :=
  match s with
  | EmptyString => [EmptyString]
  | String c s' =>
      if Ascii.eqb c sep then EmptyString :: split sep s'
      else
        match split sep s' with
        | [] => [String c EmptyString]
        | field :: fields => String c field :: fields
        end
  end.

(** [s.endsWith(suffix)] *)
Fixpoint endsWith (s suffix : string) : bool :=
  String.eqb s suffix ||
  match s with
  | EmptyString => false
  | String _ s' => endsWith s' suffix
  end.

(** A string is truthy when it is not empty. *)
Definition truthy (s : string) : bool :=
  match s with EmptyString => false | _ => true end.

Definition comma : ascii := "," % char.
Definition newline : ascii := "010" % char.

(** [headers.reduce((obj, header, i) => { obj[header] = values[i]?.trim();
    return obj; }, {})], the index starting at [i]; a value that is missing
    is [undefined], here [None].  The map holds the own properties of the
    object: an assignment to [__proto__] reaches the setter of
    [Object.prototype], which ignores a string and [undefined], and adds
    none. *)
Fixpoint fill_row (values : list string) (i : nat) (headers : list string)
    (obj : gmap string (option string)) : gmap string (option string) :=
  match headers with
  | [] => obj
  | header :: rest =>
      fill_row values (S i) rest
        (if String.eqb header "__proto__" then obj
         else <[header := trim <$> values !! i]> obj)
  end.

Definition csv_row (headers : list string) (line : string)
    : gmap string (option string) :=
  fill_row (split comma line) 0 headers ∅.

(** [lines[0]]: [split] never returns the empty array. *)
Definition first_line (lines : list string) : string :=
  match lines with
  | [] => EmptyString
  | l :: _ => l
  end.

Definition csv_headers (content : string) : list string :=
  trim <$> split comma (first_line (split newline content)).

Definition csv_data (content : string) : list (gmap string (option string)) :=
  csv_row (csv_headers content) <$>
    List.filter (fun line => truthy (trim line)) (tail (split newline content)).

(** What [handleFiles] does with a file, once read. *)
Inductive upload :=
| FormatUnsupported
| CorruptFileBuffer
| LoadedCsv (data : list (gmap string (option string))) (headers : list string)
| LoadedJson (data : json) (headers : list string).

Section Uploader.

(** The [.json] branch: [JSON.parse(content)], and [Object.keys(data[0])]
    when [data.length > 0]; [None] when one of them throws. *)
Variable read_json : string -> option (json * list string).

Definition handleFiles (name content : string) : upload :=
  if negb (endsWith name ".json") && negb (endsWith name ".csv")
  then FormatUnsupported
  else if endsWith name ".json" then
    match read_json content with
    | Some (data, headers) => LoadedJson data headers
    | None => CorruptFileBuffer
    end
  else LoadedCsv (csv_data content) (csv_headers content).

End Uploader.

(** A small file: two columns, a blank line, a short last line. *)
Definition demo_csv : string :=
  "id, name" +:+ String newline ("1, Ann " +:+ String newline
    (String newline "2")).

(** *** Notions used in the further statements *)

(** The sum of the waits of a trace. *)
Definition total_delay (tr : list event) : Z := foldr Z.add 0%Z (delays tr).

(** Starting in [w] at loop index [attempt], [fn] is rejected as rate
    limited [k] times, each rejection followed by the wait of the loop, and
    then gives the outcome [o], which is not a rate-limit rejection. *)
Inductive settles_after {W T : Type} (elapse : Z -> W -> W)
    (fn : W -> (thrown + T) * W)
    : nat -> Z -> W -> thrown + T -> W -> Prop :=
| settles_now attempt w o w' :
    fn w = (o, w') ->
    match o with inl e => isRateLimit e = false | inr _ => True end ->
    settles_after elapse fn 0 attempt w o w'
| settles_later k attempt w e w1 o w' :
    fn w = (inl e, w1) ->
    isRateLimit e = true ->
    settles_after elapse fn k (attempt + 1)%Z
      (elapse (2 ^ attempt * 2000)%Z w1) o w' ->
    settles_after elapse fn (S k) attempt w o w'.

(** The three markers of a rate-limit error. *)
Definition rate_limit_markers : list string :=
  ["429"; "resource_exhausted"; "quota"].

(** Selection changes in quick succession: each is a change of the
    selection and comes less than 500 after the one before. *)
Fixpoint rapid (last : Z) (selected : option json)
    (changes : list (Z * option json)) : Prop :=
  match changes with
  | [] => True
  | (t, id) :: rest =>
      (last <= t < last + 500)%Z /\ strict_eq id selected = false /\
      rapid t id rest
  end.

Definition selects (changes : list (Z * option json)) : list prof_event :=
  (fun c => Select c.1 c.2) <$> changes.

(** The requests issued come in pairs, persona then friction, for one
    segment. *)
Inductive request_pairs : list request -> Prop :=
| pairs_nil : request_pairs []
| pairs_snoc issued seg ctx reviews :
    request_pairs issued ->
    request_pairs (issued ++ [ReqPersona seg ctx; ReqFriction seg reviews]).

(** The four steps of an ingestion run, in order. *)
Definition ingestion_steps : list gateway_op :=
  [OpDomainDNA; OpSegments; OpReviews; OpRecommendations].

(** The segment the effect takes as active when [id] is selected. *)
Definition active_for (id : option json) (segs : list (gmap string json))
    : option (gmap string json) :=
  match find_by_id id segs with
  | Some x => Some x
  | None => head segs
  end.

(** The state right after [id] was selected at [t], starting from [s0]:
    nothing issued since, and the timer of this selection pending. *)
Definition armed (s0 : Prof) (t : Z) (id : option json) (s : Prof) : Prop :=
  p_view s = dashboard /\
  p_now s = t /\
  p_selectedSegmentId s = id /\
  p_segments s = p_segments s0 /\
  p_activeReviews s = p_activeReviews s0 /\
  p_learnedContext s = p_learnedContext s0 /\
  p_inflight s = p_inflight s0 /\
  p_issued s = p_issued s0 /\
  p_timer s =
    match active_for id (p_segments s0) with
    | Some seg =>
        Some ((t + 500)%Z,
              mkCaptured seg (p_learnedContext s0) (p_activeReviews s0))
    | None => None
    end.

(** [undefined] or [null]. *)
Definition nullish (a : option json) : Prop := a = None \/ a = Some JNull.

(** *** Concrete inputs *)

(** The state of [prof0], on the landing view. *)
Definition prof_landing : Prof :=
  mkProf 0 landing [segA; segB] (Some (JStr "a")) JNull None
    None None false None None [] [].

(** Sixteen records, and the same with another last record. *)
Definition demo_records (last : json) : list json :=
  replicate 15 JNull ++ [last].

(** An update that renames a segment. *)
Definition demo_rename : gmap string json := {["name" := JStr "renamed"]}.

Abbreviation demo_update :=
  (handleSegmentUpdate no_elapse scripted_generateContent demo_JSON_parse
     demo_local_clock demo_interpolate).

(* ===================================================================== *)
(** * Part II: properties                                                 *)
(* ===================================================================== *)

(** ** Rate-limit classification *)

Lemma isRateLimit_no_message : isRateLimit (Other None) = false.
Proof. reflexivity. Qed.

Lemma isRateLimit_429 :
  isRateLimit (Other (Some "got status: 429 Too Many Requests")) = true.
Proof. reflexivity. Qed.

Lemma isRateLimit_case_insensitive :
  isRateLimit (Other (Some "RESOURCE_EXHAUSTED")) = true /\
  isRateLimit (Other (Some "Quota exceeded for metric")) = true.
Proof. split; reflexivity. Qed.

Lemma isRateLimit_syntax_error :
  isRateLimit (Other (Some "Unexpected token < in JSON at position 0")) = false.
Proof. reflexivity. Qed.

(** ** The retry executor *)

Section RetryFacts.

Context {W T : Type}.
Variable elapse : Z -> W -> W.
Variable fn : W -> (thrown + T) * W.

Lemma attempts_app (tr tr' : list event) :
  attempts (tr ++ tr') = attempts tr ++ attempts tr'.
Proof. unfold attempts. apply omap_app. Qed.

Lemma delays_app (tr tr' : list event) :
  delays (tr ++ tr') = delays tr ++ delays tr'.
Proof. unfold delays. apply omap_app. Qed.

Lemma invoked_app (tr tr' : list event) :
  invoked (tr ++ tr') = invoked tr ++ invoked tr'.
Proof. unfold invoked. apply omap_app. Qed.

(** One iteration whose call is rejected with a rate-limit error, with
    attempts left: the loop waits and goes round. *)
Lemma retry_from_backoff maxRetries remaining attempt lastError st e w' :
  fn (world st) = (inl e, w') ->
  isRateLimit e = true ->
  (attempt < maxRetries)%Z ->
  retry_from elapse fn maxRetries (S remaining) attempt lastError st =
  retry_from elapse fn maxRetries remaining (attempt + 1)%Z e
    (mkSt (elapse (2 ^ attempt * 2000)%Z w') (app st)
       ((trace st ++ [EvAttempt attempt]) ++ [EvDelay (2 ^ attempt * 2000)%Z])).
Proof.
  intros Hfn Hrl Hlt. simpl.
  unfold bind, try_catch, external, emit; simpl.
  rewrite Hfn, Hrl.
  apply Z.ltb_lt in Hlt. rewrite Hlt. reflexivity.
Qed.

(** The last permitted attempt is rejected with a rate-limit error. *)
Lemma retry_from_exhausted maxRetries remaining attempt lastError st e w' :
  fn (world st) = (inl e, w') ->
  isRateLimit e = true ->
  (maxRetries <= attempt)%Z ->
  retry_from elapse fn maxRetries (S remaining) attempt lastError st =
  (inl (QuotaError quota_message),
   mkSt w' (app st) (trace st ++ [EvAttempt attempt])).
Proof.
  intros Hfn Hrl Hge. simpl.
  unfold bind, try_catch, external, emit, throw; simpl.
  rewrite Hfn, Hrl.
  apply Z.ltb_ge in Hge. rewrite Hge. reflexivity.
Qed.

(** A rejection that is not rate-limit classified leaves at once. *)
Lemma retry_from_other maxRetries remaining attempt lastError st e w' :
  fn (world st) = (inl e, w') ->
  isRateLimit e = false ->
  retry_from elapse fn maxRetries (S remaining) attempt lastError st =
  (inl e, mkSt w' (app st) (trace st ++ [EvAttempt attempt])).
Proof.
  intros Hfn Hrl. simpl.
  unfold bind, try_catch, external, emit, throw; simpl.
  rewrite Hfn, Hrl. reflexivity.
Qed.

(** A call that resolves is returned. *)
Lemma retry_from_resolved maxRetries remaining attempt lastError st v w' :
  fn (world st) = (inr v, w') ->
  retry_from elapse fn maxRetries (S remaining) attempt lastError st =
  (inr v, mkSt w' (app st) (trace st ++ [EvAttempt attempt])).
Proof.
  intros Hfn. simpl.
  unfold bind, try_catch, external, emit; simpl.
  rewrite Hfn. reflexivity.
Qed.

(** The iteration count stands for the loop condition. *)
Lemma loop_condition (maxRetries attempt : Z) :
  Z.to_nat (maxRetries + 1 - attempt) = 0%nat <-> ~ (attempt <= maxRetries)%Z.
Proof. lia. Qed.

(** A negative budget: the loop body never runs and line 35 throws the
    initial [lastError]. *)
Lemma withRetry_negative_budget maxRetries st :
  (maxRetries < 0)%Z ->
  withRetry elapse fn maxRetries st = (inl (Other None), st).
Proof.
  intros H. unfold withRetry.
  replace (Z.to_nat (maxRetries + 1)) with 0%nat by lia. reflexivity.
Qed.

(** A first call that resolves: one attempt, no wait. *)
Lemma withRetry_first_call_resolves maxRetries st v w' :
  (0 <= maxRetries)%Z ->
  fn (world st) = (inr v, w') ->
  withRetry elapse fn maxRetries st =
  (inr v, mkSt w' (app st) (trace st ++ [EvAttempt 0])).
Proof.
  intros H Hfn. unfold withRetry.
  replace (Z.to_nat (maxRetries + 1)) with (S (Z.to_nat maxRetries)) by lia.
  apply retry_from_resolved. exact Hfn.
Qed.

(** Rejected as rate limited through the whole budget: the loop makes every
    call of the chain, waits between them, and throws the [QuotaError]; the
    world it leaves is the one the last rejection left. *)
Lemma retry_from_rate_limited_through maxRetries k :
  forall attempt lastError st w',
    rate_limited_through elapse fn k attempt (world st) w' ->
    (attempt + Z.of_nat k = maxRetries)%Z ->
    retry_from elapse fn maxRetries (S k) attempt lastError st =
    (inl (QuotaError quota_message),
     mkSt w' (app st) (trace st ++ backoff_trace (S k) attempt)).
Proof.
  intros attempt lastError st w' Hrun.
  remember (world st) as w eqn:Hw.
  revert lastError st Hw.
  induction Hrun as [attempt w e w' Hfn Hrl
                    |k attempt w e w1 w' Hfn Hrl Hrest IH];
    intros lastError st -> Hk.
  - rewrite (retry_from_exhausted _ _ _ _ _ _ _ Hfn Hrl) by lia.
    reflexivity.
  - rewrite (retry_from_backoff _ _ _ _ _ _ _ Hfn Hrl) by lia.
    rewrite (IH e (mkSt (elapse (2 ^ attempt * 2000)%Z w1) (app st)
                     ((trace st ++ [EvAttempt attempt]) ++
                      [EvDelay (2 ^ attempt * 2000)%Z])) eq_refl) by lia.
    cbn [app trace]. rewrite <- !app_assoc. reflexivity.
Qed.

(** An operation that is rejected as rate limited whenever it is called is
    rejected through any budget. *)
Lemma always_rate_limited_through k :
  always_rate_limited fn ->
  forall attempt w, exists w', rate_limited_through elapse fn k attempt w w'.
Proof.
  intros Hall. induction k as [|k IH]; intros attempt w.
  - destruct (Hall w) as (e & He & Hrl).
    destruct (fn w) as [o w'] eqn:Hfn. cbn in He. subst o.
    exists w'. exact (limited_last elapse fn attempt w e w' Hfn Hrl).
  - destruct (Hall w) as (e & He & Hrl).
    destruct (fn w) as [o w1] eqn:Hfn. cbn in He. subst o.
    destruct (IH (attempt + 1)%Z (elapse (2 ^ attempt * 2000)%Z w1)) as [w' H].
    exists w'. exact (limited_more elapse fn k attempt w e w1 w' Hfn Hrl H).
Qed.

End RetryFacts.

Example always_429_is_rate_limited : always_rate_limited always_429.
Proof. intros w. eexists. split; reflexivity. Qed.

Lemma attempts_backoff_trace remaining attempt :
  attempts (backoff_trace remaining attempt) = seqZ attempt (Z.of_nat remaining).
Proof.
  revert attempt. induction remaining as [|n IH]; intros attempt.
  - reflexivity.
  - rewrite seqZ_cons by lia.
    replace (Z.pred (Z.of_nat (S n))) with (Z.of_nat n) by lia.
    destruct n as [|n'].
    + reflexivity.
    + change (attempts (backoff_trace (S (S n')) attempt))
        with (attempt :: attempts (backoff_trace (S n') (attempt + 1)%Z)).
      rewrite IH. reflexivity.
Qed.

Lemma delays_backoff_trace remaining attempt :
  delays (backoff_trace (S remaining) attempt) =
  (fun a => 2 ^ a * 2000)%Z <$> seqZ attempt (Z.of_nat remaining).
Proof.
  revert attempt. induction remaining as [|n IH]; intros attempt.
  - reflexivity.
  - rewrite seqZ_cons by lia.
    replace (Z.pred (Z.of_nat (S n))) with (Z.of_nat n) by lia.
    change (delays (backoff_trace (S (S n)) attempt))
      with ((2 ^ attempt * 2000)%Z :: delays (backoff_trace (S n) (attempt + 1)%Z)).
    rewrite IH. reflexivity.
Qed.

(** C1, as the code has it.  An operation that is rejected with a
    rate-limit-classified error on every one of the [maxRetries + 1] calls
    the budget [maxRetries >= 0] allows, each call made in the world the
    call before and the wait after it left: the executor makes exactly those
    calls (attempts [0 .. maxRetries]), lets [2^attempt * 2000] go by after
    each of the attempts [0 .. maxRetries - 1], ends in the world the last
    rejection left, and throws the [QuotaError] whose message is the fixed
    text, a constant that takes nothing from the rejected errors. *)
Theorem withRetry_quota_exceeded {W T : Type} (elapse : Z -> W -> W)
    (fn : W -> (thrown + T) * W) (maxRetries : Z) (st : St W) (w' : W) :
  (0 <= maxRetries)%Z ->
  rate_limited_through elapse fn (Z.to_nat maxRetries) 0 (world st) w' ->
  let r := withRetry elapse fn maxRetries st in
  r.1 = inl (QuotaError "Gemini API Quota Exceeded.") /\
  world r.2 = w' /\
  trace r.2 = trace st ++ backoff_trace (Z.to_nat (maxRetries + 1)) 0 /\
  attempts (trace r.2) = attempts (trace st) ++ seqZ 0 (maxRetries + 1) /\
  length (attempts (trace r.2)) =
    (length (attempts (trace st)) + Z.to_nat (maxRetries + 1))%nat /\
  delays (trace r.2) =
    delays (trace st) ++ ((fun a => 2 ^ a * 2000)%Z <$> seqZ 0 maxRetries) /\
  app r.2 = app st.
Proof.
  intros Hmax Hrun. unfold withRetry. cbv zeta.
  replace (Z.to_nat (maxRetries + 1)) with (S (Z.to_nat maxRetries)) by lia.
  rewrite (retry_from_rate_limited_through elapse fn maxRetries
             (Z.to_nat maxRetries) 0 (Other None) st w' Hrun) by lia.
  cbn [fst snd world app trace].
  assert (Hatt : attempts (trace st ++ backoff_trace (S (Z.to_nat maxRetries)) 0)
                 = attempts (trace st) ++ seqZ 0 (maxRetries + 1)).
  { rewrite attempts_app, attempts_backoff_trace. do 2 f_equal. lia. }
  rewrite Hatt. repeat split.
  - rewrite length_app, length_seqZ. f_equal. lia.
  - rewrite delays_app. f_equal.
    rewrite delays_backoff_trace. do 2 f_equal. lia.
Qed.

(** C1, as stated, fails in its last clause: an operation whose rate-limit
    error reads [Quota Exceeded.] is rejected through the budget, and the
    text of its error is present in the message thrown, being a part of the
    fixed text. *)
Lemma original_text_can_be_present :
  isRateLimit (Other (Some "Quota Exceeded.")) = true /\
  rate_limited_through (fun _ w => w) quota_echo 3 0 tt tt /\
  exists m,
    (withRetry (fun _ w => w) quota_echo 3 (mkSt tt blank_app [])).1
      = inl (QuotaError m) /\
    ~ original_text_absent "Quota Exceeded." m.
Proof.
  split; [reflexivity|]. split.
  - do 3 (eapply limited_more; [reflexivity | reflexivity |]).
    eapply limited_last; reflexivity.
  - exists quota_message. split; [vm_compute; reflexivity|].
    unfold original_text_absent. vm_compute. discriminate.
Qed.

(** C2.  An operation whose first call is rejected with an error that is
    not rate-limit classified, run with a retry budget [maxRetries >= 0]:
    the executor makes that one attempt, waits for nothing, and throws the
    very error it caught. *)
Theorem withRetry_other_error_propagates {W T : Type} (elapse : Z -> W -> W)
    (fn : W -> (thrown + T) * W) (maxRetries : Z) (st : St W)
    (e : thrown) (w' : W) :
  (0 <= maxRetries)%Z ->
  fn (world st) = (inl e, w') ->
  isRateLimit e = false ->
  let r := withRetry elapse fn maxRetries st in
  r.1 = inl e /\
  attempts (trace r.2) = attempts (trace st) ++ [0%Z] /\
  delays (trace r.2) = delays (trace st) /\
  world r.2 = w' /\
  app r.2 = app st.
Proof.
  intros Hmax Hfn Hrl. unfold withRetry.
  replace (Z.to_nat (maxRetries + 1)) with (S (Z.to_nat maxRetries)) by lia.
  rewrite (retry_from_other elapse fn _ _ _ _ _ _ _ Hfn Hrl).
  cbv zeta. simpl.
  rewrite attempts_app, delays_app. simpl.
  rewrite app_nil_r. auto.
Qed.

(** ** Systematic sampling *)

Lemma ceil_div_succ (k s : nat) :
  0 < s ->
  ceil_div (S k) s = ceil_div k s + (if Nat.eqb (k mod s) 0 then 1 else 0).
Proof.
  intros Hs. unfold ceil_div.
  pose proof (Nat.div_mod_eq k s) as Hk.
  pose proof (Nat.mod_upper_bound k s ltac:(lia)) as Hr.
  set (q := k / s) in *. set (r := k mod s) in *.
  assert (Hsucc : (S k + s - 1) / s = S q).
  { symmetry. apply (Nat.div_unique _ _ _ r); lia. }
  rewrite Hsucc.
  destruct (Nat.eqb_spec r 0) as [Hz|Hnz].
  - assert ((k + s - 1) / s = q) as ->; [|lia].
    symmetry. apply (Nat.div_unique _ _ _ (s - 1)); lia.
  - assert ((k + s - 1) / s = S q) as ->; [|lia].
    symmetry. apply (Nat.div_unique _ _ _ (r - 1)); lia.
Qed.

(** The records kept from the indices [i .. i + length xs - 1] are as many
    as the multiples of the stride among them. *)
Lemma length_filter_index_stride {A} (s : nat) (xs : list A) :
  0 < s ->
  forall i,
    length (filter_index (fun j => Nat.eqb (j mod s) 0) i xs) + ceil_div i s =
    ceil_div (i + length xs) s.
Proof.
  intros Hs. induction xs as [|x xs IH]; intros i.
  - simpl. f_equal. lia.
  - simpl filter_index. simpl length.
    replace (i + S (length xs)) with (S i + length xs) by lia.
    rewrite <- IH, (ceil_div_succ i s Hs).
    destruct (Nat.eqb (i mod s) 0); simpl; lia.
Qed.

Lemma filter_index_stride_1 {A} (xs : list A) i :
  filter_index (fun j => Nat.eqb (j mod 1) 0) i xs = xs.
Proof.
  revert i. induction xs as [|x xs IH]; intros i; [reflexivity|].
  cbn [filter_index]. assert (Nat.eqb (i mod 1) 0 = true) as ->.
  { rewrite Nat.mod_1_r. reflexivity. }
  f_equal. apply IH.
Qed.

Lemma stride_of_pos count : 0 < stride_of count.
Proof. unfold stride_of. lia. Qed.

Lemma stride_of_small count : count <= 50 -> stride_of count = 1.
Proof.
  intros H. unfold stride_of.
  destruct (decide (count = 50)) as [->|Hne]; [reflexivity|].
  rewrite Nat.div_small by lia. reflexivity.
Qed.

Example stride_of_values :
  stride_of 0 = 1 /\ stride_of 99 = 1 /\ stride_of 100 = 2 /\
  stride_of 2549 = 50 /\ stride_of 2550 = 51.
Proof. repeat split; reflexivity. Qed.

Example systematic_sample_100 :
  systematic_sample (seq 0 100) = (fun i => 2 * i) <$> seq 0 50.
Proof. vm_compute. reflexivity. Qed.

Example systematic_sample_75 :
  systematic_sample (seq 0 75) = seq 0 50.
Proof. vm_compute. reflexivity. Qed.

(** C3.  For a list of [N] cleaned records and [stride = max(1, floor(N/50))],
    the sample (every [stride]-th record, cut to 50) has
    [min(50, ceil(N / stride))] records and starts with the record at index 0
    of the input; and when [N <= 50] the stride is 1 and the sample is the
    whole input, in order. *)
Theorem systematic_sample_spec {A : Type} (cleanedData : list A) :
  let N := length cleanedData in
  let stride := stride_of N in
  stride = Nat.max 1 (N / 50) /\
  length (systematic_sample cleanedData) = Nat.min 50 (ceil_div N stride) /\
  systematic_sample cleanedData !! 0 = cleanedData !! 0 /\
  (N <= 50 -> stride = 1 /\ systematic_sample cleanedData = cleanedData).
Proof.
  cbv zeta. split; [reflexivity|]. split; [|split].
  - unfold systematic_sample. rewrite length_take.
    pose proof (length_filter_index_stride (stride_of (length cleanedData))
                  cleanedData (stride_of_pos _) 0) as H.
    change (ceil_div 0 (stride_of (length cleanedData)))
      with ((0 + stride_of (length cleanedData) - 1) / stride_of (length cleanedData)) in H.
    rewrite Nat.div_small in H by (pose proof (stride_of_pos (length cleanedData)); lia).
    simpl in H. rewrite Nat.add_0_r in H. rewrite H. reflexivity.
  - unfold systematic_sample. destruct cleanedData as [|x xs]; [reflexivity|].
    simpl filter_index. rewrite Nat.Div0.mod_0_l. reflexivity.
  - intros HN. split; [apply stride_of_small; exact HN|].
    unfold systematic_sample. rewrite (stride_of_small _ HN).
    rewrite filter_index_stride_1. apply take_ge. exact HN.
Qed.

(** ** Rebuilding a mapping from a pair list *)












Example fromPairs_duplicate_key :
  fromPairs [("loyalty", JNum 10); ("price", JNum 3); ("loyalty", JNum 42)]
  = <["price" := JNum 3]> (<["loyalty" := JNum 42]> ∅).
Proof. vm_compute. reflexivity. Qed.

(** ** The gateway operations *)

Section RetryFrame.

Context {W T : Type}.
Variable elapse : Z -> W -> W.
Variable fn : W -> (thrown + T) * W.

Lemma retry_from_frame maxRetries remaining :
  forall attempt lastError w a tr,
    retry_from elapse fn maxRetries remaining attempt lastError (mkSt w a tr) =
    let r := retry_from elapse fn maxRetries remaining attempt lastError
               (mkSt w blank_app []) in
    (r.1, mkSt (world r.2) a (tr ++ trace r.2)).
Proof.
  induction remaining as [|n IH]; intros attempt lastError w a tr.
  - simpl. unfold throw. simpl. rewrite app_nil_r. reflexivity.
  - cbn [retry_from]. unfold bind, try_catch, external, emit, throw. cbn.
    destruct (fn w) as [[e|v] w'].
    + destruct (isRateLimit e); [|reflexivity].
      destruct (attempt <? maxRetries)%Z; [|reflexivity].
      cbn. rewrite IH.
      rewrite (IH _ _ _ blank_app [EvAttempt attempt; EvDelay (2 ^ attempt * 2000)%Z]).
      cbv zeta. cbn. rewrite <- !app_assoc. reflexivity.
    + reflexivity.
Qed.

Lemma withRetry_world_only maxRetries : world_only (withRetry elapse fn maxRetries).
Proof.
  intros [w a tr]. unfold isolated, withRetry. cbn [world app trace].
  apply retry_from_frame.
Qed.

(** The executor emits no gateway event. *)
Lemma retry_from_invoked maxRetries remaining :
  forall attempt lastError st,
    invoked (trace (retry_from elapse fn maxRetries remaining attempt lastError st).2)
    = invoked (trace st).
Proof.
  induction remaining as [|n IH]; intros attempt lastError st.
  - reflexivity.
  - cbn [retry_from]. unfold bind, try_catch, external, emit, throw. cbn.
    destruct (fn (world st)) as [[e|v] w'].
    + destruct (isRateLimit e);
        [|cbn; rewrite invoked_app, app_nil_r; reflexivity].
      destruct (attempt <? maxRetries)%Z;
        [|cbn; rewrite invoked_app, app_nil_r; reflexivity].
      cbn. rewrite IH. cbn. rewrite !invoked_app. cbn. rewrite !app_nil_r.
      reflexivity.
    + cbn. rewrite invoked_app, app_nil_r. reflexivity.
Qed.

(** The only [QuotaError] the executor throws, when [fn] rejects with none,
    is its own. *)
Lemma retry_from_quota_message maxRetries remaining :
  never_quota fn ->
  forall attempt lastError st m,
    instanceof_QuotaError lastError = false ->
    (retry_from elapse fn maxRetries remaining attempt lastError st).1
      = inl (QuotaError m) ->
    m = quota_message.
Proof.
  intros Hnq. induction remaining as [|n IH]; intros attempt lastError st m Hlast.
  - cbn. intros [= ->]. discriminate.
  - cbn [retry_from]. unfold bind, try_catch, external, emit, throw. cbn.
    pose proof (Hnq (world st)) as Hw.
    destruct (fn (world st)) as [[e|v] w']; cbn in *.
    + specialize (Hw e eq_refl).
      destruct (isRateLimit e).
      * destruct (attempt <? maxRetries)%Z.
        -- cbn. apply IH. exact Hw.
        -- cbn. intros [= <-]. reflexivity.
      * cbn. intros [= ->]. discriminate.
    + discriminate.
Qed.


End RetryFrame.

Section GatewayFacts.

Context {W : Type}.
Variable elapse : Z -> W -> W.
Variable generateContent : request -> W -> (option string + string) * W.
Variable JSON_parse : string -> option string + json.
Variable parse_dna : string -> option string + RawDNA.
Variable parse_segments : string -> option string + list RawSegment.
Variable toISOString_now : W -> string * W.

Lemma call_model_never_quota {A} r (post : string -> W -> (thrown + A) * W) :
  post_never_quota post -> never_quota (call_model generateContent r post).
Proof.
  intros Hpost w e. unfold call_model.
  destruct (generateContent r w) as [[m|text] w']; cbn.
  - intros [= <-]. reflexivity.
  - apply Hpost.
Qed.

Lemma parsed_never_quota : post_never_quota (W := W) (parsed JSON_parse).
Proof.
  intros text w e. unfold parsed.
  destruct (JSON_parse text); cbn; [intros [= <-]; reflexivity | discriminate].
Qed.

Lemma gateway_world_only {A} r (post : string -> W -> (thrown + A) * W) :
  world_only (gateway elapse generateContent r post).
Proof.
  intros [w a tr]. unfold isolated, gateway, bind, emit, withRetry_default.
  cbn [world app trace].
  rewrite (withRetry_world_only elapse _ 3%Z (mkSt w a (tr ++ [EvInvoke (op_of r)]))).
  rewrite (withRetry_world_only elapse _ 3%Z (mkSt w blank_app ([] ++ [EvInvoke (op_of r)]))).
  cbn [world app trace fst snd]. rewrite <- !app_assoc. reflexivity.
Qed.

Lemma gateway_invoked {A} r (post : string -> W -> (thrown + A) * W) w :
  invoked (trace (isolated (gateway elapse generateContent r post) w).2)
  = [op_of r].
Proof.
  unfold isolated, gateway, bind, emit, withRetry_default, withRetry.
  cbn [world app trace]. rewrite retry_from_invoked. reflexivity.
Qed.

Lemma gateway_quota_message {A} r (post : string -> W -> (thrown + A) * W) st m :
  post_never_quota post ->
  (gateway elapse generateContent r post st).1 = inl (QuotaError m) ->
  m = quota_message.
Proof.
  intros Hpost. unfold gateway, bind, emit, withRetry_default, withRetry.
  cbn [world app trace].
  apply retry_from_quota_message; [|reflexivity].
  apply call_model_never_quota, Hpost.
Qed.


(** A response that does not parse, the [SyntaxError] not being rate-limit
    classified: the operation makes its one request and throws that error. *)
Lemma parse_failure_not_retried r st text w' m :
  generateContent r (world st) = (inr text, w') ->
  JSON_parse text = inl m ->
  isRateLimit (Other m) = false ->
  gateway elapse generateContent r (parsed JSON_parse) st =
  (inl (Other m),
   mkSt w' (app st) ((trace st ++ [EvInvoke (op_of r)]) ++ [EvAttempt 0])).
Proof.
  intros Hg Hp Hrl.
  unfold gateway, bind, emit, withRetry_default, withRetry.
  cbn [world app trace].
  change (Z.to_nat (3 + 1)) with 4%nat.
  rewrite (retry_from_other elapse _ 3 3 0 (Other None) _ (Other m) w');
    [reflexivity | | exact Hrl].
  cbn [world]. unfold call_model, parsed. rewrite Hg, Hp. reflexivity.
Qed.

Lemma dna_post_never_quota :
  post_never_quota (fun text (w : W) =>
    match parse_dna text with
    | inl m => (inl (Other m), w)
    | inr dnaResult =>
        let (now, w') := toISOString_now w in
        (inr (buildDNA dnaResult now), w')
    end).
Proof.
  intros text w e. destruct (parse_dna text); cbn.
  - intros [= <-]. reflexivity.
  - destruct (toISOString_now w). discriminate.
Qed.

Lemma segments_post_never_quota :
  post_never_quota (fun text (w : W) =>
    match parse_segments text with
    | inl m => (inl (Other m), w)
    | inr results =>
        let (out, w') := stamp_all toISOString_now results w in
        (inr out, w')
    end).
Proof.
  intros text w e. destruct (parse_segments text); cbn.
  - intros [= <-]. reflexivity.
  - destruct (stamp_all toISOString_now l w). discriminate.
Qed.



End GatewayFacts.

(** ** The controller *)

Lemma gateway_invoked_eq {W A} (elapse : Z -> W -> W) generateContent r
    (post : string -> W -> (thrown + A) * W) w o s :
  isolated (gateway elapse generateContent r post) w = (o, s) ->
  invoked (trace s) = [op_of r].
Proof.
  intros E. pose proof (gateway_invoked elapse generateContent r post w) as H.
  rewrite E in H. exact H.
Qed.

Lemma activeSegment_no_segments (a : App) :
  segments a = [] -> activeSegment a = None.
Proof. unfold activeSegment, find_by_id. intros ->. reflexivity. Qed.

(** Symbolic execution of a handler: unfold the monad and reduce. *)
Ltac mrun :=
  cbv [bind read update try_finally try_catch external throw ret emit
       surface_quota addLog fetchInsights world app trace fst snd].

Ltac as_gateway :=
  unfold synthesizeDomainDNA, discoverSegments, generateContextualReviews,
         generateMerchandisingRecommendations, generateCampaignManifest in *.

Ltac fields :=
  cbn [fst snd world app trace error deploymentToast learnedContext segments
       activeReviews selectedSegmentId recommendations loading progressStep
       logs localStorage timers with_error with_deploymentToast
       with_learnedContext with_segments with_activeReviews
       with_selectedSegmentId with_recommendations with_loading
       with_progressStep with_logs with_localStorage with_timers setItem].

(** Replay a handler against the outcomes named in the context. *)
Ltac replay_step :=
  first
    [ progress mrun
    | match goal with
      | Hc : ?clock ?w = (_, _) |- context [?clock ?w] => rewrite Hc
      end
    | unfold synthesizeDomainDNA, discoverSegments, generateContextualReviews,
             generateMerchandisingRecommendations, generateCampaignManifest;
      rewrite gateway_world_only; cbn [world app trace];
      match goal with
      | E : isolated ?g ?w = _ |- context [isolated ?g ?w] => rewrite E
      end;
      cbn [fst snd world app trace] ].

Ltac replay := repeat replay_step.

Ltac invoked_of E :=
  let Hi := fresh "Hi" in
  pose proof (gateway_invoked_eq _ _ _ _ _ _ _ E) as Hi;
  cbn [trace op_of] in Hi.

Section ControllerFacts.

Context {W : Type}.
Variable elapse : Z -> W -> W.
Variable generateContent : request -> W -> (option string + string) * W.
Variable JSON_parse : string -> option string + json.
Variable parse_dna : string -> option string + RawDNA.
Variable parse_segments : string -> option string + list RawSegment.
Variable toISOString_now : W -> string * W.
Variable toLocaleTimeString_now : W -> string * W.
Variable JSON_stringify : json -> string.
Variable interpolate : option json -> string.

Abbreviation DNA :=
  (synthesizeDomainDNA elapse generateContent parse_dna toISOString_now).
Abbreviation SEG :=
  (discoverSegments elapse generateContent parse_segments toISOString_now).
Abbreviation REV :=
  (generateContextualReviews elapse generateContent JSON_parse).
Abbreviation REC :=
  (generateMerchandisingRecommendations elapse generateContent JSON_parse).
Abbreviation MANIFEST :=
  (generateCampaignManifest elapse generateContent JSON_parse).
Abbreviation ingest :=
  (handleCustomDataLoaded elapse generateContent JSON_parse parse_dna
     parse_segments toISOString_now toLocaleTimeString_now JSON_stringify
     interpolate).
Abbreviation deploy :=
  (handleSegmentUpdate elapse generateContent JSON_parse
     toLocaleTimeString_now interpolate).

(** C5.  An ingestion run in which a step throws a [QuotaError], step by
    step (Domain-DNA synthesis, segment discovery, review synthesis,
    recommendations).  In each case the handler itself completes, no later
    gateway operation is entered, the error state is the quota error with
    the fixed message, the run is back at [idle] with [loading] off, and what
    the earlier steps stored (the new domain context and its persisted copy,
    then the segments, reviews and selection) is still there, while what the
    later steps would have stored is as it was before the run. *)
Theorem ingestion_quota_aborts (cleanedData : list json) (headers : list string)
    (st : St W) :
  let sample := systematic_sample cleanedData in
  let r := ingest cleanedData headers st in
  let dna := isolated (DNA sample headers (learnedContext (app st)))
               (toLocaleTimeString_now (world st)).2 in
  (forall m, dna.1 = inl (QuotaError m) ->
     r.1 = inr tt /\
     invoked (trace r.2) = invoked (trace st) ++ [OpDomainDNA] /\
     error (app r.2) = Some (quota, "Gemini API Quota Exceeded.") /\
     progressStep (app r.2) = idle /\
     loading (app r.2) = false /\
     learnedContext (app r.2) = learnedContext (app st) /\
     localStorage (app r.2) = localStorage (app st) /\
     segments (app r.2) = segments (app st) /\
     activeReviews (app r.2) = activeReviews (app st) /\
     selectedSegmentId (app r.2) = selectedSegmentId (app st)) /\
  (forall newDna, dna.1 = inr newDna ->
     let seg := isolated (SEG sample headers (Some newDna)) (world dna.2) in
     (forall m, seg.1 = inl (QuotaError m) ->
        r.1 = inr tt /\
        invoked (trace r.2) = invoked (trace st) ++ [OpDomainDNA; OpSegments] /\
        error (app r.2) = Some (quota, "Gemini API Quota Exceeded.") /\
        progressStep (app r.2) = idle /\
        loading (app r.2) = false /\
        learnedContext (app r.2) = Some newDna /\
        localStorage (app r.2) =
          <["neural_dna" := JSON_stringify (JObj newDna)]> (localStorage (app st)) /\
        segments (app r.2) = segments (app st) /\
        activeReviews (app r.2) = activeReviews (app st) /\
        selectedSegmentId (app r.2) = selectedSegmentId (app st)) /\
     (forall discovered, seg.1 = inr discovered ->
        let rev := isolated (REV discovered (Some newDna)) (world seg.2) in
        (forall m, rev.1 = inl (QuotaError m) ->
           r.1 = inr tt /\
           invoked (trace r.2) =
             invoked (trace st) ++ [OpDomainDNA; OpSegments; OpReviews] /\
           error (app r.2) = Some (quota, "Gemini API Quota Exceeded.") /\
           progressStep (app r.2) = idle /\
           loading (app r.2) = false /\
           learnedContext (app r.2) = Some newDna /\
           localStorage (app r.2) =
             <["neural_dna" := JSON_stringify (JObj newDna)]>
               (localStorage (app st)) /\
           segments (app r.2) = segments (app st) /\
           activeReviews (app r.2) = activeReviews (app st) /\
           selectedSegmentId (app r.2) = selectedSegmentId (app st)) /\
        (forall reviews first rest,
           rev.1 = inr reviews ->
           discovered = first :: rest ->
           let rec := isolated (REC discovered (Some newDna))
                        (toLocaleTimeString_now (world rev.2)).2 in
           forall m, rec.1 = inl (QuotaError m) ->
             r.1 = inr tt /\
             invoked (trace r.2) =
               invoked (trace st) ++
               [OpDomainDNA; OpSegments; OpReviews; OpRecommendations] /\
             error (app r.2) = Some (quota, "Gemini API Quota Exceeded.") /\
             progressStep (app r.2) = idle /\
             loading (app r.2) = false /\
             learnedContext (app r.2) = Some newDna /\
             localStorage (app r.2) =
               <["active_reviews" := JSON_stringify reviews]>
                 (<["affinity_segments" :=
                      JSON_stringify (JArr (JObj <$> discovered))]>
                    (<["neural_dna" := JSON_stringify (JObj newDna)]>
                       (localStorage (app st)))) /\
             segments (app r.2) = discovered /\
             activeReviews (app r.2) = reviews /\
             selectedSegmentId (app r.2) = first !! "id" /\
             recommendations (app r.2) = recommendations (app st)))).
Proof.
  destruct st as [w0 a0 tr0]. cbn [world app trace]. cbv zeta.
  destruct (toLocaleTimeString_now w0) as [t0 w1] eqn:Hlog. cbn [fst snd].
  destruct (isolated (DNA (systematic_sample cleanedData) headers
                        (learnedContext a0)) w1)
    as [o [w2 a2 tr2]] eqn:E.
  cbn [fst snd world]. split.
  { intros m ->. as_gateway. invoked_of E.
    assert (m = quota_message) as ->.
    { eapply gateway_quota_message; [apply dna_post_never_quota|].
      unfold isolated in E. rewrite E. reflexivity. }
    evar (fin : St W).
    assert (Hrun : ingest cleanedData headers (mkSt w0 a0 tr0) = (inr tt, fin))
      by (unfold handleCustomDataLoaded; replay; subst fin; reflexivity).
    rewrite Hrun. subst fin. fields. rewrite invoked_app, Hi. auto 12. }
  intros newDna ->.
  destruct (isolated (SEG (systematic_sample cleanedData) headers
                        (Some newDna)) w2)
    as [o2 [w3 a3 tr3]] eqn:E2.
  cbn [fst snd world]. split.
  { intros m ->. as_gateway. invoked_of E. invoked_of E2.
    assert (m = quota_message) as ->.
    { eapply gateway_quota_message; [apply segments_post_never_quota|].
      unfold isolated in E2. rewrite E2. reflexivity. }
    evar (fin : St W).
    assert (Hrun : ingest cleanedData headers (mkSt w0 a0 tr0) = (inr tt, fin))
      by (unfold handleCustomDataLoaded; replay; subst fin; reflexivity).
    rewrite Hrun. subst fin. fields.
    rewrite !invoked_app, Hi, Hi0, <- !app_assoc. auto 12. }
  intros discovered ->.
  destruct (isolated (REV discovered (Some newDna)) w3)
    as [o3 [w4 a4 tr4]] eqn:E3.
  cbn [fst snd world]. split.
  { intros m ->. as_gateway. invoked_of E. invoked_of E2. invoked_of E3.
    assert (m = quota_message) as ->.
    { eapply gateway_quota_message; [apply parsed_never_quota|].
      unfold isolated in E3. rewrite E3. reflexivity. }
    evar (fin : St W).
    assert (Hrun : ingest cleanedData headers (mkSt w0 a0 tr0) = (inr tt, fin))
      by (unfold handleCustomDataLoaded; replay; subst fin; reflexivity).
    rewrite Hrun. subst fin. fields.
    rewrite !invoked_app, Hi, Hi0, Hi1, <- !app_assoc. auto 12. }
  intros reviews first rest -> ->.
  destruct (toLocaleTimeString_now w4) as [t1 w5] eqn:Hlog2. cbn [fst snd].
  destruct (isolated (REC (first :: rest) (Some newDna)) w5)
    as [o4 [w6 a6 tr6]] eqn:E4.
  cbn [fst snd world].
  intros m ->. as_gateway.
  invoked_of E. invoked_of E2. invoked_of E3. invoked_of E4.
  assert (m = quota_message) as ->.
  { eapply gateway_quota_message; [apply parsed_never_quota|].
    unfold isolated in E4. rewrite E4. reflexivity. }
  evar (fin : St W).
  assert (Hrun : ingest cleanedData headers (mkSt w0 a0 tr0) = (inr tt, fin))
    by (unfold handleCustomDataLoaded; replay; subst fin; reflexivity).
  rewrite Hrun. subst fin. fields.
  rewrite !invoked_app, Hi, Hi0, Hi1, Hi2, <- !app_assoc. auto 14.
Qed.

(** C6, the defect.  An ingestion run on the dashboard in which segment
    discovery returns the empty array and review synthesis succeeds.  The
    handler stores the empty list and persists it before it reads
    [discovered[0].id]; that read throws and the handler's own [catch] takes
    it, so the handler completes, back at [idle] and with no error shown,
    without a selection and without a recommendation request.  But the store
    is now empty, no segment is the active one, and the render that follows
    reads [activeSegment.status] of [undefined] and throws: the component
    crashes, the empty list being what a reload will find in storage. *)
Theorem empty_discovery_breaks_render (cleanedData : list json)
    (headers : list string) (st : St W) (newDna : gmap string json)
    (reviews : json) :
  let sample := systematic_sample cleanedData in
  let r := ingest cleanedData headers st in
  let dna := isolated (DNA sample headers (learnedContext (app st)))
               (toLocaleTimeString_now (world st)).2 in
  let seg := isolated (SEG sample headers (Some newDna)) (world dna.2) in
  let rev := isolated (REV [] (Some newDna)) (world seg.2) in
  dna.1 = inr newDna ->
  seg.1 = inr [] ->
  rev.1 = inr reviews ->
  r.1 = inr tt /\
  progressStep (app r.2) = idle /\
  loading (app r.2) = false /\
  error (app r.2) = None /\
  selectedSegmentId (app r.2) = selectedSegmentId (app st) /\
  invoked (trace r.2) = invoked (trace st) ++ [OpDomainDNA; OpSegments; OpReviews] /\
  segments (app r.2) = [] /\
  localStorage (app r.2) !! "affinity_segments" = Some (JSON_stringify (JArr [])) /\
  activeSegment (app r.2) = None /\
  render dashboard (app r.2) =
    inl (Other (Some "Cannot read properties of undefined (reading 'status')")).
Proof.
  destruct st as [w0 a0 tr0]. cbn [world app trace]. cbv zeta.
  destruct (toLocaleTimeString_now w0) as [t0 w1] eqn:Hlog. cbn [fst snd].
  destruct (isolated (DNA (systematic_sample cleanedData) headers
                        (learnedContext a0)) w1)
    as [o [w2 a2 tr2]] eqn:E.
  cbn [fst snd world]. intros ->.
  destruct (isolated (SEG (systematic_sample cleanedData) headers
                        (Some newDna)) w2)
    as [o2 [w3 a3 tr3]] eqn:E2.
  cbn [fst snd world]. intros ->.
  destruct (isolated (REV [] (Some newDna)) w3) as [o3 [w4 a4 tr4]] eqn:E3.
  cbn [fst snd world]. intros ->.
  as_gateway. invoked_of E. invoked_of E2. invoked_of E3.
  evar (fin : St W).
  assert (Hrun : ingest cleanedData headers (mkSt w0 a0 tr0) = (inr tt, fin))
    by (unfold handleCustomDataLoaded; replay; subst fin; reflexivity).
  rewrite Hrun; subst fin; fields.
  rewrite !invoked_app, Hi, Hi0, Hi1, <- !app_assoc.
  do 7 (split; [reflexivity|]).
  split.
  { rewrite lookup_insert_ne by discriminate. apply lookup_insert_eq. }
  split; [reflexivity|].
  unfold render, activeSegment. cbn [segments find_by_id List.find head].
  reflexivity.
Qed.


(** C7.  A deployment (an update whose [status] is [Active Strategy], for a
    segment in the store) whose Generate-Campaign-Manifest call fails, with
    whatever error: the handler completes without throwing, the segment
    store is exactly what it was, the error state, the toast and the timers
    are untouched, and the last log entry is the failure entry. *)
Theorem deployment_failure_is_contained (id : string) (updates : gmap string json)
    (st : St W) (seg : gmap string json) (e : thrown) :
  let r := deploy id updates st in
  updates !! "status" = Some (JStr "Active Strategy") ->
  find_by_id (Some (JStr id)) (segments (app st)) = Some seg ->
  (isolated (MANIFEST seg (learnedContext (app st)))
     (toLocaleTimeString_now (world st)).2).1 = inl e ->
  r.1 = inr tt /\
  segments (app r.2) = segments (app st) /\
  error (app r.2) = error (app st) /\
  deploymentToast (app r.2) = deploymentToast (app st) /\
  timers (app r.2) = timers (app st) /\
  invoked (trace r.2) = invoked (trace st) ++ [OpCampaignManifest] /\
  exists now,
    last (logs (app r.2)) =
    Some (String.append "[" (String.append now
            "] DEPLOYMENT FAILED: AI synthesis interrupted.")).
Proof.
  destruct st as [w0 a0 tr0]. cbn [world app trace]. cbv zeta.
  intros Hstatus Hfind.
  destruct (toLocaleTimeString_now w0) as [t0 w1] eqn:Hlog. cbn [fst snd].
  destruct (isolated (MANIFEST seg (learnedContext a0)) w1)
    as [o [w2 a2 tr2]] eqn:E.
  cbn [fst snd]. intros ->.
  destruct (toLocaleTimeString_now w2) as [t1 w3] eqn:Hlog2.
  as_gateway. invoked_of E.
  evar (fin : St W).
  assert (Hrun : deploy id updates (mkSt w0 a0 tr0) = (inr tt, fin)).
  { unfold handleSegmentUpdate. replay.
    rewrite Hstatus, Hfind. cbn [strict_eq]. rewrite String.eqb_refl.
    replay. subst fin. reflexivity. }
  rewrite Hrun. subst fin. fields.
  rewrite invoked_app, Hi.
  do 6 (split; [reflexivity|]). exists t1. apply last_snoc.
Qed.

End ControllerFacts.

(** ** Reactive profiling *)

Lemma advance_not_due t s :
  not_due t s ->
  advance t s =
  mkProf (Z.max (p_now s) t) (p_view s) (p_segments s) (p_selectedSegmentId s)
    (p_activeReviews s) (p_learnedContext s) (p_personaDetails s)
    (p_frictionData s) (p_profilingLoading s) (p_error s)
    (p_timer s) (p_inflight s) (p_issued s).
Proof.
  unfold not_due, advance. destruct (p_timer s) as [[due c]|] eqn:Ht.
  - intros H. apply Z.leb_gt in H. rewrite H, Ht. reflexivity.
  - rewrite Ht. reflexivity.
Qed.

(** A selection change on the dashboard: whatever was pending is cleared,
    and a timer is pending again exactly when there is an active segment. *)
Lemma select_changed id s :
  strict_eq id (p_selectedSegmentId s) = false ->
  p_view s = dashboard ->
  let s' := select id s in
  p_now s' = p_now s /\
  p_view s' = dashboard /\
  p_segments s' = p_segments s /\
  p_selectedSegmentId s' = id /\
  p_activeReviews s' = p_activeReviews s /\
  p_learnedContext s' = p_learnedContext s /\
  p_inflight s' = p_inflight s /\
  p_issued s' = p_issued s /\
  p_timer s' =
    match (match find_by_id id (p_segments s) with
           | Some x => Some x
           | None => head (p_segments s)
           end) with
    | Some seg =>
        Some ((p_now s + 500)%Z,
              mkCaptured seg (p_learnedContext s) (p_activeReviews s))
    | None => None
    end.
Proof.
  intros Hne Hview. unfold select. rewrite Hne.
  unfold run_effect, p_activeSegment. cbn [p_selectedSegmentId p_segments p_view].
  rewrite Hview.
  destruct (find_by_id id (p_segments s)) as [x|];
    [|destruct (head (p_segments s))]; cbn; auto 10.
Qed.

Lemma not_due_after_select id s t :
  strict_eq id (p_selectedSegmentId s) = false ->
  p_view s = dashboard ->
  (t < p_now s + 500)%Z ->
  not_due t (select id s).
Proof.
  intros Hne Hview Ht.
  destruct (select_changed id s Hne Hview) as (_ & _ & _ & _ & _ & _ & _ & _ & Htimer).
  unfold not_due. rewrite Htimer.
  destruct (match find_by_id id (p_segments s) with
            | Some x => Some x
            | None => head (p_segments s)
            end); [exact Ht | exact I].
Qed.

(** C8.  On the dashboard, three selection changes at times
    [t1 <= t2 <= t3], each less than 500 after the one before, the last one
    selecting a segment of the store, and then quiet until the timer is due:
    exactly one request pair is issued, Get-Persona-Details and
    Analyze-Friction for the segment selected last; the timers of the two
    superseded selections were cleared before they could run. *)
Theorem debounce_three_changes (s : Prof) (t1 t2 t3 T : Z)
    (a b c : option json) (segc : gmap string json) :
  p_view s = dashboard ->
  not_due t1 s ->
  (p_now s <= t1 <= t2)%Z -> (t2 <= t3)%Z ->
  (t2 - t1 < 500)%Z -> (t3 - t2 < 500)%Z -> (t3 + 500 <= T)%Z ->
  strict_eq a (p_selectedSegmentId s) = false ->
  strict_eq b a = false ->
  strict_eq c b = false ->
  find_by_id c (p_segments s) = Some segc ->
  let s' := prof_run s [Select t1 a; Select t2 b; Select t3 c; Tick T] in
  p_issued s' =
    p_issued s ++ [ReqPersona segc (p_learnedContext s);
                   ReqFriction segc (p_activeReviews s)] /\
  p_inflight s' = p_inflight s ++ [segc] /\
  p_timer s' = None /\
  p_selectedSegmentId s' = c.
Proof.
  intros Hview Hdue [Hnow H12] H23 Hd12 Hd23 HT Ha Hb Hc Hfind.
  unfold prof_run. cbn [foldl prof_step].
  (* first change *)
  pose proof (advance_not_due t1 s Hdue) as E0.
  set (s0 := advance t1 s) in *.
  assert (F0 : p_now s0 = t1 /\ p_view s0 = dashboard /\
               p_selectedSegmentId s0 = p_selectedSegmentId s /\
               p_segments s0 = p_segments s /\
               p_activeReviews s0 = p_activeReviews s /\
               p_learnedContext s0 = p_learnedContext s /\
               p_inflight s0 = p_inflight s /\ p_issued s0 = p_issued s).
  { rewrite E0. cbn. repeat split; try assumption; lia. }
  destruct F0 as (N0 & V0 & S0 & G0 & R0 & C0 & I0 & Q0).
  rewrite <- S0 in Ha.
  destruct (select_changed a s0 Ha V0) as (N1 & V1 & G1 & S1 & R1 & C1 & I1 & Q1 & _).
  pose proof (not_due_after_select a s0 t2 Ha V0 ltac:(lia)) as D1.
  set (s1 := select a s0) in *.
  (* second change *)
  pose proof (advance_not_due t2 s1 D1) as E1.
  set (s1' := advance t2 s1) in *.
  assert (F1 : p_now s1' = t2 /\ p_view s1' = dashboard /\
               p_selectedSegmentId s1' = a /\
               p_segments s1' = p_segments s /\
               p_activeReviews s1' = p_activeReviews s /\
               p_learnedContext s1' = p_learnedContext s /\
               p_inflight s1' = p_inflight s /\ p_issued s1' = p_issued s).
  { rewrite E1. cbn. repeat split; try congruence; lia. }
  destruct F1 as (N1' & V1' & S1' & G1' & R1' & C1' & I1' & Q1').
  rewrite <- S1' in Hb.
  destruct (select_changed b s1' Hb V1') as (N2 & V2 & G2 & S2 & R2 & C2 & I2 & Q2 & _).
  pose proof (not_due_after_select b s1' t3 Hb V1' ltac:(lia)) as D2.
  set (s2 := select b s1') in *.
  (* third change *)
  pose proof (advance_not_due t3 s2 D2) as E2.
  set (s2' := advance t3 s2) in *.
  assert (F2 : p_now s2' = t3 /\ p_view s2' = dashboard /\
               p_selectedSegmentId s2' = b /\
               p_segments s2' = p_segments s /\
               p_activeReviews s2' = p_activeReviews s /\
               p_learnedContext s2' = p_learnedContext s /\
               p_inflight s2' = p_inflight s /\ p_issued s2' = p_issued s).
  { rewrite E2. cbn. repeat split; try congruence; lia. }
  destruct F2 as (N2' & V2' & S2' & G2' & R2' & C2' & I2' & Q2').
  rewrite <- S2' in Hc.
  destruct (select_changed c s2' Hc V2') as (N3 & V3 & G3 & S3 & R3 & C3 & I3 & Q3 & T3).
  rewrite G2', Hfind, N2', C2', R2' in T3.
  set (s3 := select c s2') in *.
  (* the timer of the last change runs *)
  unfold advance. rewrite T3.
  assert ((t3 + 500 <=? T)%Z = true) as -> by (apply Z.leb_le; lia).
  cbn. rewrite Q3, Q2', I3, I2', S3. auto.
Qed.

Lemma segA_id : segA !! "id" = Some (JStr "a").
Proof. apply lookup_singleton_eq. Qed.

Lemma segB_id : segB !! "id" = Some (JStr "b").
Proof. apply lookup_singleton_eq. Qed.

Lemma segA_neq_segB : segA <> segB.
Proof.
  intros H. apply (f_equal (fun m : gmap string json => m !! "id")) in H.
  rewrite segA_id, segB_id in H. discriminate.
Qed.

Lemma find_segA : find_by_id (Some (JStr "a")) [segA; segB] = Some segA.
Proof.
  unfold find_by_id. cbn [List.find]. rewrite segA_id. reflexivity.
Qed.

Lemma find_segB : find_by_id (Some (JStr "b")) [segA; segB] = Some segB.
Proof.
  unfold find_by_id. cbn [List.find]. rewrite segA_id, segB_id. reflexivity.
Qed.

Lemma prof_stale_state :
  p_inflight prof_stale = [segB] /\
  p_activeSegment prof_stale = Some segA /\
  p_selectedSegmentId prof_stale = Some (JStr "a") /\
  p_timer prof_stale = Some (1100%Z, mkCaptured segA None JNull) /\
  p_personaDetails prof_stale = None /\
  p_frictionData prof_stale = None /\
  p_issued prof_stale = [ReqPersona segB None; ReqFriction segB JNull].
Proof. vm_compute. repeat split; reflexivity. Qed.

(** A selection change leaves the requests in flight where they are. *)
Lemma select_keeps_inflight id s : p_inflight (select id s) = p_inflight s.
Proof.
  unfold select. destruct (strict_eq id (p_selectedSegmentId s)); [reflexivity|].
  unfold run_effect. cbn [p_view].
  destruct (p_activeSegment _); [destruct (p_view s)|]; reflexivity.
Qed.

(** A pair that settles with results is applied. *)
Lemma settle_resolved (s : Prof) (t : Z) (k : nat) (seg : gmap string json)
    (persona friction : json) :
  p_inflight (advance t s) !! k = Some seg ->
  let s' := prof_step s (Settle t k (inr (persona, friction))) in
  p_personaDetails s' = Some persona /\
  p_frictionData s' = Some friction /\
  p_profilingLoading s' = false /\
  p_selectedSegmentId s' = p_selectedSegmentId (advance t s).
Proof.
  intros Hk. cbn [prof_step]. unfold settle. rewrite Hk. cbn. auto.
Qed.

(** C9, as the code has it.  No result is tagged and none is discarded: a
    selection change leaves the pairs in flight where they are, and a pair
    that settles with results sets the persona and the friction cell to
    them, whichever segment it was issued for and whichever is active. *)
Theorem settle_applies_unconditionally (s : Prof) (t : Z) (k : nat)
    (seg : gmap string json) (persona friction : json) :
  p_inflight (advance t s) !! k = Some seg ->
  let s' := prof_step s (Settle t k (inr (persona, friction))) in
  p_personaDetails s' = Some persona /\
  p_frictionData s' = Some friction /\
  p_profilingLoading s' = false /\
  p_selectedSegmentId s' = p_selectedSegmentId (advance t s) /\
  forall t' id, p_inflight (prof_step s (Select t' id)) = p_inflight (advance t' s).
Proof.
  intros Hk. cbv zeta.
  destruct (settle_resolved s t k seg persona friction Hk) as (H1 & H2 & H3 & H4).
  repeat split; try assumption. intros t' id. apply select_keeps_inflight.
Qed.

Lemma loyalists_neq_bargain_hunters : loyalists <> bargain_hunters.
Proof.
  intros H. apply (f_equal (fun m : gmap string json => m !! "id")) in H.
  vm_compute in H. discriminate.
Qed.

(** The run of [prof_live_stale]: the pair for [b] went out at 500, built
    from a segment and a review list its prompts can be built from, and is
    still in flight at 700, when [a] is the active segment. *)
Lemma prof_live_stale_state :
  p_issued prof_live_stale =
    [ReqPersona bargain_hunters None; ReqFriction bargain_hunters demo_reviews] /\
  forallb prompt_builds (p_issued prof_live_stale) = true /\
  p_inflight (advance 700 prof_live_stale) = [bargain_hunters] /\
  p_activeSegment (advance 700 prof_live_stale) = Some loyalists /\
  p_personaDetails prof_live_stale = None.
Proof. vm_compute. repeat split; reflexivity. Qed.

Lemma settle_applies_unconditionally_witness :
  p_inflight (advance 700 prof_live_stale) !! 0%nat = Some bargain_hunters /\
  p_personaDetails
    (prof_step prof_live_stale
       (Settle 700 0 (inr (JStr "persona of b", JStr "friction of b"))))
  = Some (JStr "persona of b").
Proof.
  assert (H : p_inflight (advance 700 prof_live_stale) !! 0%nat
              = Some bargain_hunters).
  { vm_compute. reflexivity. }
  split; [exact H|].
  exact (proj1 (settle_applies_unconditionally prof_live_stale 700 0
                  bargain_hunters
                  (JStr "persona of b") (JStr "friction of b") H)).
Defined.

(** C9, as stated, fails.  In [prof_live_stale] the pair in flight was
    issued for [b] with prompts that can be built, both operations resolve
    when the model answers, the active segment is [a] by then, and the
    results of the pair are applied all the same. *)
Lemma stale_result_is_applied :
  p_issued prof_live_stale =
    [ReqPersona bargain_hunters None; ReqFriction bargain_hunters demo_reviews] /\
  forallb prompt_builds (p_issued prof_live_stale) = true /\
  (isolated (getPersonaDetails no_elapse scripted_generateContent
               demo_JSON_parse bargain_hunters None)
     [inr "persona of b"]).1 = inr (JStr "persona of b") /\
  (isolated (analyzeFriction no_elapse scripted_generateContent
               demo_JSON_parse bargain_hunters demo_reviews)
     [inr "friction of b"]).1 = inr (JStr "friction of b") /\
  ~ discards_stale prof_live_stale 700 0
      (JStr "persona of b", JStr "friction of b").
Proof.
  destruct prof_live_stale_state as (Hiss & Hbuild & Hin & Hact & Hnone).
  split; [exact Hiss|]. split; [exact Hbuild|].
  split; [vm_compute; reflexivity|]. split; [vm_compute; reflexivity|].
  intros H.
  assert (Hk : p_inflight (advance 700 prof_live_stale) !! 0%nat
               = Some bargain_hunters)
    by (rewrite Hin; reflexivity).
  assert (Hstale : p_activeSegment (advance 700 prof_live_stale)
                   <> Some bargain_hunters).
  { rewrite Hact. intros Heq. apply loyalists_neq_bargain_hunters. congruence. }
  destruct (H bargain_hunters Hk Hstale) as [Hp _].
  destruct (settle_resolved prof_live_stale 700 0 bargain_hunters
              (JStr "persona of b") (JStr "friction of b") Hk) as (Hp' & _).
  rewrite Hp', Hnone in Hp. discriminate.
Qed.

(** ** The theorems at concrete inputs *)

Lemma withRetry_quota_exceeded_witness :
  (0 <= 3)%Z /\
  rate_limited_through (fun _ w => w) (flaky 10 (JStr "ok")) (Z.to_nat 3) 0
    0%nat 4%nat /\
  (withRetry (fun _ w => w) (flaky 10 (JStr "ok")) 3
     (mkSt 0%nat blank_app [])).1
    = inl (QuotaError "Gemini API Quota Exceeded.") /\
  world (withRetry (fun _ w => w) (flaky 10 (JStr "ok")) 3
           (mkSt 0%nat blank_app [])).2 = 4%nat /\
  attempts (trace (withRetry (fun _ w => w) (flaky 10 (JStr "ok")) 3
                     (mkSt 0%nat blank_app [])).2)
    = [0; 1; 2; 3]%Z /\
  delays (trace (withRetry (fun _ w => w) (flaky 10 (JStr "ok")) 3
                   (mkSt 0%nat blank_app [])).2)
    = [2000; 4000; 8000]%Z.
Proof.
  assert (H0 : (0 <= 3)%Z) by lia.
  assert (H1 : rate_limited_through (fun _ w => w) (flaky 10 (JStr "ok"))
                 (Z.to_nat 3) 0 0%nat 4%nat).
  { do 3 (eapply limited_more; [reflexivity | reflexivity |]).
    eapply limited_last; reflexivity. }
  destruct (withRetry_quota_exceeded (fun _ w => w) (flaky 10 (JStr "ok")) 3
              (mkSt 0%nat blank_app []) 4%nat H0 H1)
    as (R & Hw & _ & A & _ & D & _).
  split; [exact H0|]. split; [exact H1|]. split; [exact R|].
  split; [exact Hw|]. split; [exact A | exact D].
Defined.

Lemma withRetry_other_error_propagates_witness :
  (0 <= 3)%Z /\
  isRateLimit (Other (Some "Unexpected token < in JSON at position 0")) = false /\
  (withRetry (fun _ w => w) bad_json 3 (mkSt tt blank_app [])).1
    = inl (Other (Some "Unexpected token < in JSON at position 0")) /\
  attempts (trace (withRetry (fun _ w => w) bad_json 3 (mkSt tt blank_app [])).2)
    = [0%Z] /\
  delays (trace (withRetry (fun _ w => w) bad_json 3 (mkSt tt blank_app [])).2)
    = [].
Proof.
  assert (H0 : (0 <= 3)%Z) by lia.
  assert (H1 : isRateLimit (Other (Some "Unexpected token < in JSON at position 0"))
               = false) by reflexivity.
  destruct (withRetry_other_error_propagates (fun _ w => w) bad_json 3
              (mkSt tt blank_app []) _ tt H0 eq_refl H1) as (R & A & D & _).
  split; [exact H0|]. split; [exact H1|]. split; [exact R|].
  split; [exact A | exact D].
Defined.

Lemma systematic_sample_spec_witness :
  length (systematic_sample (seq 0 120)) = 50%nat /\
  systematic_sample (seq 0 120) !! 0%nat = Some 0%nat /\
  systematic_sample [7; 8; 9]%nat = [7; 8; 9]%nat.
Proof.
  destruct (systematic_sample_spec (seq 0 120)) as (_ & L & Z0 & _).
  destruct (systematic_sample_spec [7; 8; 9]%nat) as (_ & _ & _ & S).
  split; [exact L|]. split; [exact Z0|].
  apply S. cbn. lia.
Defined.



Lemma ingestion_quota_aborts_witness :
  (isolated (synthesizeDomainDNA no_elapse scripted_generateContent
               demo_parse_dna demo_clock (systematic_sample []) [] None)
     [rate_limited; rate_limited; rate_limited; rate_limited]).1
    = inl (QuotaError "Gemini API Quota Exceeded.") /\
  error (app (demo_ingest [] []
                (demo_state [rate_limited; rate_limited; rate_limited;
                             rate_limited])).2)
    = Some (quota, "Gemini API Quota Exceeded.") /\
  progressStep (app (demo_ingest [] []
                (demo_state [rate_limited; rate_limited; rate_limited;
                             rate_limited])).2) = idle.
Proof.
  assert (H : (isolated (synthesizeDomainDNA no_elapse scripted_generateContent
                 demo_parse_dna demo_clock (systematic_sample []) [] None)
               [rate_limited; rate_limited; rate_limited; rate_limited]).1
              = inl (QuotaError "Gemini API Quota Exceeded."))
    by (vm_compute; reflexivity).
  split; [exact H|].
  destruct (proj1 (ingestion_quota_aborts no_elapse scripted_generateContent
                     demo_JSON_parse demo_parse_dna demo_parse_segments
                     demo_clock demo_local_clock demo_stringify
                     demo_interpolate [] []
                     (demo_state [rate_limited; rate_limited; rate_limited;
                                  rate_limited]))
              "Gemini API Quota Exceeded." H)
    as (_ & _ & He & Hp & _).
  split; [exact He | exact Hp].
Defined.

Lemma empty_discovery_breaks_render_witness :
  (isolated (synthesizeDomainDNA no_elapse scripted_generateContent
               demo_parse_dna demo_clock (systematic_sample []) [] None)
     [inr "retail"; inr "[]"; inr "reviews"]).1 = inr demo_dna /\
  (isolated (discoverSegments no_elapse scripted_generateContent
               demo_parse_segments demo_clock (systematic_sample []) []
               (Some demo_dna))
     [inr "[]"; inr "reviews"]).1 = inr [] /\
  (isolated (generateContextualReviews no_elapse scripted_generateContent
               demo_JSON_parse [] (Some demo_dna))
     [inr "reviews"]).1 = inr (JStr "reviews") /\
  (demo_ingest [] [] (demo_state [inr "retail"; inr "[]"; inr "reviews"])).1
    = inr tt /\
  segments
    (app (demo_ingest [] []
            (demo_state [inr "retail"; inr "[]"; inr "reviews"])).2) = [] /\
  render dashboard
    (app (demo_ingest [] []
            (demo_state [inr "retail"; inr "[]"; inr "reviews"])).2)
  = inl (Other (Some "Cannot read properties of undefined (reading 'status')")).
Proof.
  assert (H1 : (isolated (synthesizeDomainDNA no_elapse scripted_generateContent
                  demo_parse_dna demo_clock (systematic_sample []) [] None)
                [inr "retail"; inr "[]"; inr "reviews"]).1 = inr demo_dna)
    by (vm_compute; reflexivity).
  assert (H2 : (isolated (discoverSegments no_elapse scripted_generateContent
                  demo_parse_segments demo_clock (systematic_sample []) []
                  (Some demo_dna))
                [inr "[]"; inr "reviews"]).1 = inr [])
    by (vm_compute; reflexivity).
  assert (H3 : (isolated (generateContextualReviews no_elapse
                  scripted_generateContent demo_JSON_parse [] (Some demo_dna))
                [inr "reviews"]).1 = inr (JStr "reviews"))
    by (vm_compute; reflexivity).
  split; [exact H1|]. split; [exact H2|]. split; [exact H3|].
  destruct (empty_discovery_breaks_render no_elapse scripted_generateContent
              demo_JSON_parse demo_parse_dna demo_parse_segments
              demo_clock demo_local_clock demo_stringify demo_interpolate
              [] [] (demo_state [inr "retail"; inr "[]"; inr "reviews"])
              demo_dna (JStr "reviews") H1 H2 H3)
    as (Hr & _ & _ & _ & _ & _ & Hs & _ & _ & Hrender).
  split; [exact Hr|]. split; [exact Hs | exact Hrender].
Defined.

Lemma deployment_failure_is_contained_witness :
  demo_updates !! "status" = Some (JStr "Active Strategy") /\
  find_by_id (Some (JStr "a")) (segments demo_app) = Some segA /\
  segments
    (app (handleSegmentUpdate no_elapse scripted_generateContent demo_JSON_parse
            demo_local_clock demo_interpolate "a" demo_updates
            (mkSt [inl (Some "503 Service Unavailable")] demo_app [])).2)
    = [segA; segB] /\
  error
    (app (handleSegmentUpdate no_elapse scripted_generateContent demo_JSON_parse
            demo_local_clock demo_interpolate "a" demo_updates
            (mkSt [inl (Some "503 Service Unavailable")] demo_app [])).2)
    = None.
Proof.
  assert (H1 : demo_updates !! "status" = Some (JStr "Active Strategy"))
    by apply lookup_singleton_eq.
  assert (H2 : find_by_id (Some (JStr "a")) (segments demo_app) = Some segA)
    by exact find_segA.
  split; [exact H1|]. split; [exact H2|].
  destruct (deployment_failure_is_contained no_elapse scripted_generateContent
              demo_JSON_parse demo_local_clock demo_interpolate
              "a" demo_updates
              (mkSt [inl (Some "503 Service Unavailable")] demo_app [])
              segA (Other (Some "503 Service Unavailable")) H1 H2)
    as (_ & Hs & He & _).
  - vm_compute. reflexivity.
  - split; [exact Hs | exact He].
Defined.

Lemma debounce_three_changes_witness :
  find_by_id (Some (JStr "b")) (p_segments prof0) = Some segB /\
  p_issued
    (prof_run prof0
       [Select 0 (Some (JStr "b")); Select 100 (Some (JStr "a"));
        Select 200 (Some (JStr "b")); Tick 700])
  = [ReqPersona segB None; ReqFriction segB JNull].
Proof.
  assert (H : find_by_id (Some (JStr "b")) (p_segments prof0) = Some segB)
    by exact find_segB.
  split; [exact H|].
  refine (proj1 (debounce_three_changes prof0 0 100 200 700
                   (Some (JStr "b")) (Some (JStr "a")) (Some (JStr "b")) segB
                   eq_refl I _ _ _ _ _ eq_refl eq_refl eq_refl H)); cbn; lia.
Defined.

(* ===================================================================== *)
(** * Part III: further properties of the code                            *)
(* ===================================================================== *)

(** ** The retry executor, any operation *)

Section RetryMore.

Context {W T : Type}.
Variable elapse : Z -> W -> W.
Variable fn : W -> (thrown + T) * W.

Lemma backoff_trace_step n attempt :
  (1 <= n)%nat ->
  backoff_trace (S n) attempt =
  EvAttempt attempt :: EvDelay (2 ^ attempt * 2000)%Z ::
  backoff_trace n (attempt + 1)%Z.
Proof. destruct n; [lia | reflexivity]. Qed.

Lemma total_delay_backoff n attempt :
  (0 <= attempt)%Z ->
  total_delay (backoff_trace (S n) attempt) =
  ((2 ^ (attempt + Z.of_nat n) - 2 ^ attempt) * 2000)%Z.
Proof.
  revert attempt. induction n as [|n IH]; intros attempt Ha.
  - replace (attempt + Z.of_nat 0)%Z with attempt by lia.
    rewrite Z.sub_diag. reflexivity.
  - rewrite backoff_trace_step by lia.
    change (total_delay (EvAttempt attempt :: EvDelay (2 ^ attempt * 2000)%Z ::
                         backoff_trace (S n) (attempt + 1)%Z))
      with (2 ^ attempt * 2000 + total_delay (backoff_trace (S n) (attempt + 1)))%Z.
    rewrite IH by lia.
    replace (attempt + 1 + Z.of_nat n)%Z with (attempt + Z.of_nat (S n))%Z by lia.
    rewrite (Z.pow_add_r 2 attempt 1) by lia. lia.
Qed.

Lemma total_delay_app tr tr' :
  total_delay (tr ++ tr') = (total_delay tr + total_delay tr')%Z.
Proof.
  unfold total_delay. rewrite delays_app.
  induction (delays tr) as [|d ds IH]; cbn; [reflexivity | lia].
Qed.

(** Whatever the operation does, a run of the loop is one of two chains of
    calls and waits: rejected as rate limited [k] times and then settled, or
    rejected as rate limited through what is left of the budget. *)
Lemma retry_from_cases maxRetries remaining :
  forall attempt lastError st,
    remaining = Z.to_nat (maxRetries + 1 - attempt) ->
    (0 <= attempt <= maxRetries)%Z ->
    (exists k o w',
       (attempt + Z.of_nat k <= maxRetries)%Z /\
       settles_after elapse fn k attempt (world st) o w' /\
       retry_from elapse fn maxRetries remaining attempt lastError st =
       (o, mkSt w' (app st) (trace st ++ backoff_trace (S k) attempt))) \/
    (exists w',
       rate_limited_through elapse fn (Z.to_nat (maxRetries - attempt)) attempt
         (world st) w' /\
       retry_from elapse fn maxRetries remaining attempt lastError st =
       (inl (QuotaError quota_message),
        mkSt w' (app st) (trace st ++ backoff_trace remaining attempt))).
Proof.
  induction remaining as [|rem IH]; intros attempt lastError st Hrem Hrange;
    [lia|].
  destruct (fn (world st)) as [[e|v] w'] eqn:Hfn.
  - destruct (isRateLimit e) eqn:Hrl.
    + destruct (decide (attempt < maxRetries)%Z) as [Hlt|Hge].
      * rewrite (retry_from_backoff elapse fn _ _ _ _ _ _ _ Hfn Hrl Hlt).
        destruct (IH (attempt + 1)%Z e
                    (mkSt (elapse (2 ^ attempt * 2000)%Z w') (app st)
                       ((trace st ++ [EvAttempt attempt]) ++
                        [EvDelay (2 ^ attempt * 2000)%Z])))
          as [(k & o & w2 & Hk & Hs & Hr) | (w2 & Hs & Hr)]; [lia | lia | |];
          cbn [world app trace] in Hs, Hr.
        -- left. exists (S k), o, w2. split; [lia|]. split.
           ++ exact (settles_later elapse fn k attempt (world st) e w' o w2
                       Hfn Hrl Hs).
           ++ rewrite Hr. rewrite (backoff_trace_step (S k)) by lia.
              rewrite <- !app_assoc. reflexivity.
        -- right. exists w2. split.
           ++ replace (Z.to_nat (maxRetries - attempt))
                with (S (Z.to_nat (maxRetries - (attempt + 1)))) by lia.
              exact (limited_more elapse fn _ attempt (world st) e w' w2
                       Hfn Hrl Hs).
           ++ rewrite Hr. rewrite (backoff_trace_step rem) by lia.
              rewrite <- !app_assoc. reflexivity.
      * rewrite (retry_from_exhausted elapse fn _ _ _ _ _ _ _ Hfn Hrl) by lia.
        right. exists w'. split.
        -- replace (Z.to_nat (maxRetries - attempt)) with 0%nat by lia.
           exact (limited_last elapse fn attempt (world st) e w' Hfn Hrl).
        -- assert (rem = 0%nat) as -> by lia. reflexivity.
    + rewrite (retry_from_other elapse fn _ _ _ _ _ _ _ Hfn Hrl).
      left. exists 0%nat, (inl e), w'. split; [lia|]. split; [|reflexivity].
      apply settles_now; [exact Hfn | exact Hrl].
  - rewrite (retry_from_resolved elapse fn _ _ _ _ _ _ _ Hfn).
    left. exists 0%nat, (inr v), w'. split; [lia|]. split; [|reflexivity].
    apply settles_now; [exact Hfn | exact I].
Qed.

(** The outcome of a chain that settles is the outcome of one call. *)
Lemma settles_after_last k attempt w o w' :
  settles_after elapse fn k attempt w o w' -> exists w0, fn w0 = (o, w').
Proof.
  induction 1 as [attempt w o w' Hfn _ | k attempt w e w1 o w' _ _ _ IH];
    [exists w; exact Hfn | exact IH].
Qed.

(** X1.  Whatever the wrapped operation does, a call of the executor with
    a budget [maxRetries >= 0] is one of two runs.  Either the operation is
    rejected as rate limited [n - 1] times, for some [n] between 1 and
    [maxRetries + 1], and then settles, and the executor ends with that
    outcome; or it is rejected as rate limited on all [maxRetries + 1] calls
    and the executor throws the [QuotaError].  Either way the operation is
    called [n] times, each call in the world the call before and the wait
    after it left, [2^a * 2000] goes by after each call [a] but the last,
    [(2^(n-1) - 1) * 2000] in all and at most [(2^maxRetries - 1) * 2000],
    the executor ends in the world the last call left, and the controller
    state is untouched. *)
Theorem withRetry_schedule (maxRetries : Z) (st : St W) :
  (0 <= maxRetries)%Z ->
  let r := withRetry elapse fn maxRetries st in
  exists (n : nat) (w' : W),
    (1 <= n <= Z.to_nat (maxRetries + 1))%nat /\
    r.2 = mkSt w' (app st) (trace st ++ backoff_trace n 0) /\
    (settles_after elapse fn (n - 1) 0 (world st) r.1 w' \/
     (n = Z.to_nat (maxRetries + 1) /\
      r.1 = inl (QuotaError "Gemini API Quota Exceeded.") /\
      rate_limited_through elapse fn (n - 1) 0 (world st) w')) /\
    attempts (backoff_trace n 0) = seqZ 0 (Z.of_nat n) /\
    delays (backoff_trace n 0) =
      (fun a => 2 ^ a * 2000)%Z <$> seqZ 0 (Z.of_nat n - 1) /\
    total_delay (backoff_trace n 0) = ((2 ^ (Z.of_nat n - 1) - 1) * 2000)%Z /\
    (total_delay (backoff_trace n 0) <= (2 ^ maxRetries - 1) * 2000)%Z.
Proof.
  intros Hmax. cbv zeta. unfold withRetry.
  assert (Hshape : forall m : nat,
            (Z.of_nat m <= maxRetries)%Z ->
            attempts (backoff_trace (S m) 0) = seqZ 0 (Z.of_nat (S m)) /\
            delays (backoff_trace (S m) 0) =
              (fun a => 2 ^ a * 2000)%Z <$> seqZ 0 (Z.of_nat (S m) - 1) /\
            total_delay (backoff_trace (S m) 0)
              = ((2 ^ (Z.of_nat (S m) - 1) - 1) * 2000)%Z /\
            (total_delay (backoff_trace (S m) 0) <= (2 ^ maxRetries - 1) * 2000)%Z).
  { intros m Hm. split; [apply attempts_backoff_trace|]. split.
    { rewrite delays_backoff_trace. do 2 f_equal. lia. }
    rewrite total_delay_backoff by lia.
    replace (0 + Z.of_nat m)%Z with (Z.of_nat (S m) - 1)%Z by lia.
    change (2 ^ 0)%Z with 1%Z. split; [reflexivity|].
    assert (2 ^ (Z.of_nat (S m) - 1) <= 2 ^ maxRetries)%Z
      by (apply Z.pow_le_mono_r; lia).
    lia. }
  destruct (retry_from_cases maxRetries (Z.to_nat (maxRetries + 1))
              0%Z (Other None) st)
    as [(k & o & w' & Hk & Hs & Hr) | (w' & Hs & Hr)];
    [f_equal; lia | lia | |]; rewrite Hr; cbn [fst snd].
  - exists (S k), w'. split; [lia|]. split; [reflexivity|].
    split; [|apply Hshape; lia].
    left. replace (S k - 1)%nat with k by lia. exact Hs.
  - exists (Z.to_nat (maxRetries + 1)), w'. split; [lia|].
    split; [reflexivity|].
    replace (Z.to_nat (maxRetries + 1)) with (S (Z.to_nat maxRetries)) by lia.
    split; [|apply Hshape; lia].
    right. split; [reflexivity|]. split; [reflexivity|].
    replace (S (Z.to_nat maxRetries) - 1)%nat with (Z.to_nat maxRetries) by lia.
    replace (Z.to_nat (maxRetries - 0)) with (Z.to_nat maxRetries) in Hs by lia.
    exact Hs.
Qed.

(** The loop entered at [attempt] with an operation that settles after [k]
    rejections, the budget allowing them. *)
Lemma retry_from_settles maxRetries k attempt w o w' :
  settles_after elapse fn k attempt w o w' ->
  forall st remaining lastError,
    world st = w ->
    (0 <= attempt)%Z ->
    (attempt + Z.of_nat k <= maxRetries)%Z ->
    remaining = Z.to_nat (maxRetries + 1 - attempt) ->
    retry_from elapse fn maxRetries remaining attempt lastError st =
    (o, mkSt w' (app st) (trace st ++ backoff_trace (S k) attempt)).
Proof.
  induction 1 as [attempt w o w' Hfn Hdec | k attempt w e w1 o w' Hfn Hrl _ IH];
    intros st remaining lastError Hw Ha Hk Hrem.
  - destruct remaining as [|rem]; [lia|]. subst w.
    destruct o as [e|v].
    + apply retry_from_other; assumption.
    + apply retry_from_resolved; assumption.
  - destruct remaining as [|rem]; [lia|]. subst w.
    rewrite (retry_from_backoff elapse fn _ _ _ _ _ _ _ Hfn Hrl) by lia.
    rewrite (IH (mkSt (elapse (2 ^ attempt * 2000)%Z w1) (app st)
                   ((trace st ++ [EvAttempt attempt]) ++
                    [EvDelay (2 ^ attempt * 2000)%Z])) rem e);
      [| reflexivity | lia | lia | lia].
    cbn [app trace]. rewrite (backoff_trace_step (S k)) by lia.
    rewrite <- !app_assoc. reflexivity.
Qed.

(** X2.  An operation that is rejected as rate limited [k] times and then
    either resolves or is rejected with an error that is not rate-limit
    classified, run with a budget [maxRetries >= k]: the executor ends with
    that very outcome (the value, or the error itself and not a
    [QuotaError]) after [k + 1] attempts and the [k] waits
    [2000, 4000, ...]. *)
Theorem withRetry_settles (maxRetries : Z) (k : nat) (st : St W)
    (o : thrown + T) (w' : W) :
  settles_after elapse fn k 0 (world st) o w' ->
  (Z.of_nat k <= maxRetries)%Z ->
  withRetry elapse fn maxRetries st =
    (o, mkSt w' (app st) (trace st ++ backoff_trace (S k) 0)) /\
  attempts (backoff_trace (S k) 0) = seqZ 0 (Z.of_nat k + 1) /\
  delays (backoff_trace (S k) 0) =
    (fun a => 2 ^ a * 2000)%Z <$> seqZ 0 (Z.of_nat k).
Proof.
  intros Hs Hk. split; [|split].
  - unfold withRetry.
    apply (retry_from_settles maxRetries k 0 (world st) o w' Hs);
      [reflexivity | lia | lia | f_equal; lia].
  - rewrite attempts_backoff_trace. f_equal. lia.
  - apply delays_backoff_trace.
Qed.

(** X3.  When the wrapped operation itself never rejects with a
    [QuotaError], the executor throws one only once the whole budget is
    spent: the operation was called [maxRetries + 1] times and rejected as
    rate limited each time, every wait of the schedule went by between the
    calls, the executor ends in the world the last rejection left, and the
    message is the fixed one. *)
Theorem withRetry_quota_only_when_exhausted (maxRetries : Z) (st : St W)
    (m : string) :
  (0 <= maxRetries)%Z ->
  never_quota fn ->
  (withRetry elapse fn maxRetries st).1 = inl (QuotaError m) ->
  m = "Gemini API Quota Exceeded." /\
  rate_limited_through elapse fn (Z.to_nat maxRetries) 0 (world st)
    (world (withRetry elapse fn maxRetries st).2) /\
  trace (withRetry elapse fn maxRetries st).2
    = trace st ++ backoff_trace (Z.to_nat (maxRetries + 1)) 0 /\
  attempts (backoff_trace (Z.to_nat (maxRetries + 1)) 0) = seqZ 0 (maxRetries + 1) /\
  delays (backoff_trace (Z.to_nat (maxRetries + 1)) 0) =
    (fun a => 2 ^ a * 2000)%Z <$> seqZ 0 maxRetries.
Proof.
  intros Hmax Hnq. unfold withRetry.
  destruct (retry_from_cases maxRetries (Z.to_nat (maxRetries + 1))
              0%Z (Other None) st)
    as [(k & o & w' & Hk & Hs & Hr) | (w' & Hs & Hr)];
    [f_equal; lia | lia | |]; rewrite Hr; cbn [fst snd world trace].
  - intros ->. exfalso.
    destruct (settles_after_last _ _ _ _ _ Hs) as [w0 Hfn].
    pose proof (Hnq w0 (QuotaError m)) as Hno. rewrite Hfn in Hno.
    specialize (Hno eq_refl). discriminate.
  - intros [= <-]. split; [reflexivity|]. split.
    { replace (Z.to_nat (maxRetries - 0)) with (Z.to_nat maxRetries) in Hs by lia.
      exact Hs. }
    split; [reflexivity|]. split.
    { rewrite attempts_backoff_trace. f_equal. lia. }
    replace (Z.to_nat (maxRetries + 1)) with (S (Z.to_nat maxRetries)) by lia.
    rewrite delays_backoff_trace. do 2 f_equal. lia.
Qed.

(** A rejection that leaves the executor as it came is never a rate-limit
    one, when the budget is not negative. *)
Lemma retry_from_thrown maxRetries remaining :
  forall attempt lastError st e,
    remaining = Z.to_nat (maxRetries + 1 - attempt) ->
    (0 <= attempt <= maxRetries)%Z ->
    (retry_from elapse fn maxRetries remaining attempt lastError st).1 = inl e ->
    e = QuotaError quota_message \/
    (isRateLimit e = false /\ exists w w', fn w = (inl e, w')).
Proof.
  induction remaining as [|rem IH]; intros attempt lastError st e0 Hrem Hrange;
    [lia|].
  destruct (fn (world st)) as [[e|v] w'] eqn:Hfn.
  - destruct (isRateLimit e) eqn:Hrl.
    + destruct (decide (attempt < maxRetries)%Z) as [Hlt|Hge].
      * rewrite (retry_from_backoff elapse fn _ _ _ _ _ _ _ Hfn Hrl Hlt).
        apply IH; lia.
      * rewrite (retry_from_exhausted elapse fn _ _ _ _ _ _ _ Hfn Hrl) by lia.
        cbn [fst]. intros [= <-]. left. reflexivity.
    + rewrite (retry_from_other elapse fn _ _ _ _ _ _ _ Hfn Hrl).
      cbn [fst]. intros [= <-]. right. eauto.
  - rewrite (retry_from_resolved elapse fn _ _ _ _ _ _ _ Hfn). discriminate.
Qed.

End RetryMore.

(** ** Rate-limit classification *)

Lemma prefix_spec (sub s : string) :
  String.prefix sub s = true <-> exists post, s = String.append sub post.
Proof.
  revert s. induction sub as [|a sub IH]; intros s.
  - split; [intros _; exists s; reflexivity | intros _; destruct s; reflexivity].
  - destruct s as [|b s]; cbn.
    + split; [discriminate | intros [post [=]]].
    + destruct (ascii_dec a b) as [->|Hne].
      * rewrite IH. split; intros [post H]; exists post.
        -- cbn. rewrite H. reflexivity.
        -- cbn in H. injection H as H. exact H.
      * split; [discriminate|]. intros [post H]. cbn in H.
        injection H as Hab _. congruence.
Qed.

Lemma includes_spec (s sub : string) :
  includes s sub = true <->
  exists pre post, s = String.append pre (String.append sub post).
Proof.
  induction s as [|c s IH]; cbn [includes].
  - rewrite orb_false_r, prefix_spec. split.
    + intros [post H]. exists EmptyString, post. exact H.
    + intros ([|c pre] & post & H); [exists post; exact H | discriminate].
  - rewrite orb_true_iff, prefix_spec, IH. split.
    + intros [[post H] | (pre & post & H)].
      * exists EmptyString, post. exact H.
      * exists (String c pre), post. cbn. rewrite H. reflexivity.
    + intros ([|c' pre] & post & H).
      * left. exists post. exact H.
      * right. exists pre, post. cbn in H. injection H as _ H. exact H.
Qed.

Lemma toLowerCase_idempotent (s : string) :
  toLowerCase (toLowerCase s) = toLowerCase s.
Proof.
  induction s as [|c s IH]; [reflexivity|]. cbn. rewrite IH. f_equal.
  clear. destruct c as [[] [] [] [] [] [] [] []]; reflexivity.
Qed.

(** X4.  An error is classified as a rate-limit error exactly when its
    message, lower-cased (the empty string when it has none), contains
    ["429"], ["resource_exhausted"] or ["quota"] as a run of consecutive
    characters; so the classification of a message is that of its lower-case
    form, and an error without a message is never rate limited. *)
Theorem isRateLimit_iff_marker (e : thrown) :
  (isRateLimit e = true <->
   exists marker pre post,
     marker ∈ rate_limit_markers /\
     errorMessage e = String.append pre (String.append marker post)) /\
  (forall m, isRateLimit (Other (Some m)) = isRateLimit (Other (Some (toLowerCase m)))) /\
  isRateLimit (Other None) = false.
Proof.
  split; [|split].
  - unfold isRateLimit, rate_limit_markers.
    rewrite !orb_true_iff, !includes_spec. split.
    + intros [[(pre & post & H) | (pre & post & H)] | (pre & post & H)];
        eexists _, pre, post; (split; [|exact H]); set_solver.
    + intros (marker & pre & post & Hin & H).
      apply elem_of_cons in Hin as [-> | Hin]; [left; left; eauto|].
      apply elem_of_cons in Hin as [-> | Hin]; [left; right; eauto|].
      apply elem_of_cons in Hin as [-> | Hin]; [right; eauto|].
      set_solver.
  - intros m. unfold isRateLimit, errorMessage. cbn [message_of].
    rewrite toLowerCase_idempotent. reflexivity.
  - reflexivity.
Qed.

Example isRateLimit_of_quota_error :
  isRateLimit (QuotaError quota_message) = true.
Proof. reflexivity. Qed.

(** ** The gateway operations, any request *)

Section GatewayMore.

Context {W : Type}.
Variable elapse : Z -> W -> W.
Variable generateContent : request -> W -> (option string + string) * W.

(** X5.  Every gateway operation, whatever the model answers and whatever
    its post-processing does, enters its operation once and makes between
    one and four attempts, an attempt being one run of its body: the prompt
    is built, the request is sent and the response is post-processed, with
    at most one request per attempt.  The attempts but the last are rejected
    as rate limited, and the last one settles the call, or all four are and
    the call throws the [QuotaError]; each attempt is made in the world the
    attempt before and the wait after it left; the waits are an initial part
    of 2000, 4000, 8000, one after each attempt but the last, so 14000 in
    all at most; and the controller state is untouched. *)
Theorem gateway_budget {A : Type} (r : request)
    (post : string -> W -> (thrown + A) * W) (st : St W) :
  let res := gateway elapse generateContent r post st in
  let attempt := call_model generateContent r post in
  exists (n : nat) (w' : W),
    (1 <= n <= 4)%nat /\
    res.2 = mkSt w' (app st)
              (trace st ++ EvInvoke (op_of r) :: backoff_trace n 0) /\
    (settles_after elapse attempt (n - 1) 0 (world st) res.1 w' \/
     (n = 4%nat /\
      res.1 = inl (QuotaError "Gemini API Quota Exceeded.") /\
      rate_limited_through elapse attempt 3 0 (world st) w')) /\
    invoked (trace res.2) = invoked (trace st) ++ [op_of r] /\
    length (attempts (backoff_trace n 0)) = n /\
    delays (backoff_trace n 0) = take (n - 1) [2000; 4000; 8000]%Z /\
    (total_delay (backoff_trace n 0) <= 14000)%Z.
Proof.
  cbv zeta. unfold gateway, bind, emit, withRetry_default, withRetry.
  cbn [world app trace].
  assert (Hshape : forall n : nat,
            (1 <= n <= 4)%nat ->
            invoked (trace st ++ EvInvoke (op_of r) :: backoff_trace n 0)
              = invoked (trace st) ++ [op_of r] /\
            length (attempts (backoff_trace n 0)) = n /\
            delays (backoff_trace n 0) = take (n - 1) [2000; 4000; 8000]%Z /\
            (total_delay (backoff_trace n 0) <= 14000)%Z).
  { intros n Hn.
    assert (Hcases : (n = 1 \/ n = 2 \/ n = 3 \/ n = 4)%nat) by lia.
    rewrite invoked_app.
    destruct Hcases as [-> | [-> | [-> | ->]]];
      (split; [reflexivity|]); (split; [reflexivity|]);
      (split; [reflexivity|]); vm_compute; discriminate. }
  destruct (retry_from_cases elapse (call_model generateContent r post)
              3 (Z.to_nat (3 + 1)) 0%Z (Other None)
              (mkSt (world st) (app st) (trace st ++ [EvInvoke (op_of r)])))
    as [(k & o & w' & Hk & Hs & Hr) | (w' & Hs & Hr)];
    [reflexivity | lia | |]; cbn [world app trace] in Hs, Hr; rewrite Hr;
    cbn [fst snd trace].
  - exists (S k), w'. split; [lia|].
    rewrite <- app_assoc. cbn [app]. split; [reflexivity|].
    split; [|apply Hshape; lia].
    left. replace (S k - 1)%nat with k by lia. exact Hs.
  - exists 4%nat, w'. split; [lia|].
    rewrite <- app_assoc. cbn [app]. split; [reflexivity|].
    split; [|apply Hshape; lia].
    right. split; [reflexivity|]. split; [reflexivity|]. exact Hs.
Qed.

(** X6.  What a gateway operation throws is either the [QuotaError] with
    the fixed message or an error that is not rate-limit classified, the one
    the request or the post-processing of the response was rejected with: a
    rate-limit error of the model never reaches the caller as it came. *)
Theorem gateway_failure_kinds {A : Type} (r : request)
    (post : string -> W -> (thrown + A) * W) (st : St W) (e : thrown) :
  (gateway elapse generateContent r post st).1 = inl e ->
  e = QuotaError "Gemini API Quota Exceeded." \/
  (isRateLimit e = false /\
   exists w w', call_model generateContent r post w = (inl e, w')).
Proof.
  unfold gateway, bind, emit, withRetry_default, withRetry.
  cbn [world app trace].
  apply retry_from_thrown; [reflexivity | lia].
Qed.

End GatewayMore.

(** ** Systematic sampling, record by record *)

Lemma succ_mod (i s : nat) :
  (0 < s)%nat ->
  (S i) mod s = if Nat.eqb (S (i mod s)) s then 0%nat else S (i mod s).
Proof.
  intros Hs.
  pose proof (Nat.div_mod_eq i s) as Hi.
  pose proof (Nat.mod_upper_bound i s ltac:(lia)) as Hr.
  destruct (Nat.eqb_spec (S (i mod s)) s) as [He|Hne].
  - symmetry. apply (Nat.mod_unique _ _ (S (i / s))); lia.
  - symmetry. apply (Nat.mod_unique _ _ (i / s)); lia.
Qed.

(** The kept records, counted from the first multiple of the stride at or
    after the starting index. *)
Lemma filter_index_stride_lookup {A} (s : nat) (xs : list A) :
  (0 < s)%nat ->
  forall i j,
    filter_index (fun k => Nat.eqb (k mod s) 0) i xs !! j =
    xs !! ((s - i mod s) mod s + j * s)%nat.
Proof.
  intros Hs. induction xs as [|x xs IH]; intros i j; [reflexivity|].
  cbn [filter_index].
  pose proof (Nat.mod_upper_bound i s ltac:(lia)) as Hr.
  pose proof (succ_mod i s Hs) as Hsucc.
  destruct (Nat.eqb_spec (i mod s) 0) as [Hz|Hnz].
  - rewrite Hz, Nat.sub_0_r, Nat.Div0.mod_same. rewrite Hz in Hsucc.
    destruct j as [|j]; [reflexivity|].
    cbn [lookup list_lookup]. rewrite IH, Hsucc.
    destruct (Nat.eqb_spec 1 s) as [<-|Hs1].
    + rewrite Nat.sub_0_r, Nat.Div0.mod_same.
      replace (0 + S j * 1)%nat with (S (0 + j * 1)) by lia.
      reflexivity.
    + rewrite (Nat.mod_small (s - 1) s) by lia.
      replace (0 + S j * s)%nat with (S (s - 1 + j * s)) by lia.
      reflexivity.
  - rewrite IH, Hsucc.
    rewrite (Nat.mod_small (s - i mod s) s) by lia.
    destruct (Nat.eqb_spec (S (i mod s)) s) as [He|Hne].
    + rewrite Nat.sub_0_r, Nat.Div0.mod_same.
      replace (s - i mod s + j * s)%nat with (S (0 + j * s)) by lia.
      reflexivity.
    + rewrite (Nat.mod_small (s - S (i mod s)) s) by lia.
      replace (s - i mod s + j * s)%nat with (S (s - S (i mod s) + j * s)) by lia.
      reflexivity.
Qed.

(** X7.  The sample is the records at the indices [0], [stride],
    [2 * stride], ... of the input, in that order: its [j]-th record, for
    [j < 50], is record [j * stride] of the input (none when the input is
    shorter), and it has no record at [j >= 50]. *)
Theorem systematic_sample_lookup {A : Type} (cleanedData : list A) :
  let stride := stride_of (length cleanedData) in
  (forall j, (j < 50)%nat ->
     systematic_sample cleanedData !! j = cleanedData !! (j * stride)%nat) /\
  (forall j, (50 <= j)%nat -> systematic_sample cleanedData !! j = None).
Proof.
  cbv zeta. unfold systematic_sample. split; intros j Hj.
  - rewrite lookup_take_lt by exact Hj.
    rewrite (filter_index_stride_lookup _ _ (stride_of_pos _)).
    rewrite Nat.Div0.mod_0_l, Nat.sub_0_r, Nat.Div0.mod_same. reflexivity.
  - apply lookup_take_ge. exact Hj.
Qed.

(** ** The controller, all outcomes *)


Lemma take_5_of_15 {A} (l l' : list A) :
  take 15 l = take 15 l' -> take 5 l = take 5 l'.
Proof.
  intros H.
  assert (Hx : forall x : list A, take 5 x = take 5 (take 15 x))
    by (intros x; rewrite take_take; reflexivity).
  rewrite (Hx l), (Hx l'), H. reflexivity.
Qed.

Section ControllerMore.

Context {W : Type}.
Variable elapse : Z -> W -> W.
Variable generateContent : request -> W -> (option string + string) * W.
Variable JSON_parse : string -> option string + json.
Variable parse_dna : string -> option string + RawDNA.
Variable parse_segments : string -> option string + list RawSegment.
Variable toISOString_now : W -> string * W.
Variable toLocaleTimeString_now : W -> string * W.
Variable JSON_stringify : json -> string.
Variable interpolate : option json -> string.

Abbreviation DNA :=
  (synthesizeDomainDNA elapse generateContent parse_dna toISOString_now).
Abbreviation SEG :=
  (discoverSegments elapse generateContent parse_segments toISOString_now).
Abbreviation REV :=
  (generateContextualReviews elapse generateContent JSON_parse).
Abbreviation REC :=
  (generateMerchandisingRecommendations elapse generateContent JSON_parse).
Abbreviation MANIFEST :=
  (generateCampaignManifest elapse generateContent JSON_parse).
Abbreviation ingest :=
  (handleCustomDataLoaded elapse generateContent JSON_parse parse_dna
     parse_segments toISOString_now toLocaleTimeString_now JSON_stringify
     interpolate).
Abbreviation deploy :=
  (handleSegmentUpdate elapse generateContent JSON_parse
     toLocaleTimeString_now interpolate).
Abbreviation insights :=
  (fetchInsights elapse generateContent JSON_parse).
Abbreviation log := (addLog toLocaleTimeString_now).

(** X8.  [addLog] keeps a window of five entries: the log after it is the
    last four entries of the log before it, in order, followed by the new
    entry, which is the message behind the time in brackets; nothing else of
    the controller state changes. *)
Theorem addLog_window (msg : string) (st : St W) :
  let r := log msg st in
  let entry :=
    String.append "["
      (String.append (toLocaleTimeString_now (world st)).1
         (String.append "] " msg)) in
  r.1 = inr tt /\
  logs (app r.2) =
    drop (length (logs (app st)) - 4) (logs (app st)) ++ [entry] /\
  length (logs (app r.2)) = Nat.min 5 (length (logs (app st)) + 1) /\
  (length (logs (app r.2)) <= 5)%nat /\
  app r.2 = with_logs (logs (app r.2)) (app st) /\
  trace r.2 = trace st.
Proof.
  destruct st as [w0 a0 tr0]. cbn [world app trace]. cbv zeta.
  unfold addLog. mrun.
  destruct (toLocaleTimeString_now w0) as [t0 w1]. fields.
  unfold slice_last4.
  rewrite length_app, length_drop. cbn [length].
  repeat split; lia.
Qed.

(** X9.  [fetchInsights] never throws and always ends with [loading] off
    and the step at [idle].  When the recommendations arrive they replace
    the stored ones and no error is shown; on a [QuotaError] the quota error
    with the fixed message is shown; on any other failure no error is shown
    at all, a previously shown one being cleared; in both failure cases the
    stored recommendations stay.  Segments, reviews, context, selection and
    storage are never touched. *)
Theorem fetchInsights_outcomes (targetSegments : list (gmap string json))
    (reviews : json) (ctx : option (gmap string json)) (st : St W) :
  let r := insights targetSegments reviews ctx st in
  let o := (isolated (REC targetSegments ctx) (world st)).1 in
  r.1 = inr tt /\
  loading (app r.2) = false /\
  progressStep (app r.2) = idle /\
  invoked (trace r.2) = invoked (trace st) ++ [OpRecommendations] /\
  recommendations (app r.2) =
    match o with inr recs => recs | inl _ => recommendations (app st) end /\
  error (app r.2) =
    match o with
    | inl (QuotaError _) => Some (quota, "Gemini API Quota Exceeded.")
    | _ => None
    end /\
  segments (app r.2) = segments (app st) /\
  activeReviews (app r.2) = activeReviews (app st) /\
  learnedContext (app r.2) = learnedContext (app st) /\
  selectedSegmentId (app r.2) = selectedSegmentId (app st) /\
  localStorage (app r.2) = localStorage (app st) /\
  logs (app r.2) = logs (app st).
Proof.
  destruct st as [w0 a0 tr0]. cbn [world app trace]. cbv zeta.
  destruct (isolated (REC targetSegments ctx) w0) as [o [w1 a1 tr1]] eqn:E.
  cbn [fst]. as_gateway. invoked_of E.
  destruct o as [[m|m]|recs].
  - assert (m = quota_message) as ->.
    { eapply gateway_quota_message; [apply parsed_never_quota|].
      unfold isolated in E. rewrite E. reflexivity. }
    evar (fin : St W).
    assert (Hrun : insights targetSegments reviews ctx (mkSt w0 a0 tr0)
                   = (inr tt, fin))
      by (unfold fetchInsights; replay; subst fin; reflexivity).
    rewrite Hrun. subst fin. fields. rewrite invoked_app, Hi. auto 14.
  - evar (fin : St W).
    assert (Hrun : insights targetSegments reviews ctx (mkSt w0 a0 tr0)
                   = (inr tt, fin))
      by (unfold fetchInsights; replay; subst fin; reflexivity).
    rewrite Hrun. subst fin. fields. rewrite invoked_app, Hi. auto 14.
  - evar (fin : St W).
    assert (Hrun : insights targetSegments reviews ctx (mkSt w0 a0 tr0)
                   = (inr tt, fin))
      by (unfold fetchInsights; replay; subst fin; reflexivity).
    rewrite Hrun. subst fin. fields. rewrite invoked_app, Hi. auto 14.
Qed.

(** Close a leaf of a case analysis on an ingestion run. *)
Ltac ingest_leaf cleanedData headers w0 a0 tr0 :=
  let fin := fresh "fin" in
  let Hrun := fresh "Hrun" in
  evar (fin : St W);
  assert (Hrun : ingest cleanedData headers (mkSt w0 a0 tr0) = (inr tt, fin))
    by (unfold handleCustomDataLoaded; replay; subst fin; reflexivity);
  rewrite Hrun; subst fin; fields.

Ltac quota_message_of E :=
  match type of E with
  | _ = (inl (QuotaError ?m), _) =>
      assert (m = quota_message) as ->
        by (unfold isolated in E;
            eapply gateway_quota_message; [|exact (f_equal fst E)];
            first [ apply dna_post_never_quota
                  | apply segments_post_never_quota
                  | apply parsed_never_quota ])
  end.

(** X10.  An ingestion run never throws, whatever the model answers and
    whichever step fails: it ends with [loading] off and the step at [idle],
    the error state is empty or the quota error with the fixed message, and
    the gateway operations entered are an initial part, at least the first,
    of Domain-DNA synthesis, segment discovery, review synthesis,
    recommendations, in that order. *)
Theorem ingestion_always (cleanedData : list json) (headers : list string)
    (st : St W) :
  let r := ingest cleanedData headers st in
  r.1 = inr tt /\
  loading (app r.2) = false /\
  progressStep (app r.2) = idle /\
  (error (app r.2) = None \/
   error (app r.2) = Some (quota, "Gemini API Quota Exceeded.")) /\
  exists n : nat,
    (1 <= n <= 4)%nat /\
    invoked (trace r.2) = invoked (trace st) ++ take n ingestion_steps.
Proof.
  destruct st as [w0 a0 tr0]. cbn [world app trace]. cbv zeta.
  destruct (toLocaleTimeString_now w0) as [t0 w1] eqn:Hlog.
  destruct (isolated (DNA (systematic_sample cleanedData) headers
                        (learnedContext a0)) w1)
    as [o [w2 a2 tr2]] eqn:E.
  as_gateway. invoked_of E.
  destruct o as [[m|m]|newDna].
  { quota_message_of E.
    ingest_leaf cleanedData headers w0 a0 tr0.
    rewrite invoked_app, Hi. do 3 (split; [reflexivity|]).
    split; [right; reflexivity|]. exists 1%nat. split; [lia | reflexivity]. }
  { ingest_leaf cleanedData headers w0 a0 tr0.
    rewrite invoked_app, Hi. do 3 (split; [reflexivity|]).
    split; [left; reflexivity|]. exists 1%nat. split; [lia | reflexivity]. }
  destruct (isolated (SEG (systematic_sample cleanedData) headers
                        (Some newDna)) w2)
    as [o2 [w3 a3 tr3]] eqn:E2.
  as_gateway. invoked_of E2.
  destruct o2 as [[m|m]|discovered].
  { quota_message_of E2.
    ingest_leaf cleanedData headers w0 a0 tr0.
    rewrite !invoked_app, Hi, Hi0, <- !app_assoc. do 3 (split; [reflexivity|]).
    split; [right; reflexivity|]. exists 2%nat. split; [lia | reflexivity]. }
  { ingest_leaf cleanedData headers w0 a0 tr0.
    rewrite !invoked_app, Hi, Hi0, <- !app_assoc. do 3 (split; [reflexivity|]).
    split; [left; reflexivity|]. exists 2%nat. split; [lia | reflexivity]. }
  destruct (isolated (REV discovered (Some newDna)) w3)
    as [o3 [w4 a4 tr4]] eqn:E3.
  as_gateway. invoked_of E3.
  destruct o3 as [[m|m]|reviews].
  { quota_message_of E3.
    ingest_leaf cleanedData headers w0 a0 tr0.
    rewrite !invoked_app, Hi, Hi0, Hi1, <- !app_assoc.
    do 3 (split; [reflexivity|]).
    split; [right; reflexivity|]. exists 3%nat. split; [lia | reflexivity]. }
  { ingest_leaf cleanedData headers w0 a0 tr0.
    rewrite !invoked_app, Hi, Hi0, Hi1, <- !app_assoc.
    do 3 (split; [reflexivity|]).
    split; [left; reflexivity|]. exists 3%nat. split; [lia | reflexivity]. }
  destruct discovered as [|first rest].
  { ingest_leaf cleanedData headers w0 a0 tr0.
    rewrite !invoked_app, Hi, Hi0, Hi1, <- !app_assoc.
    do 3 (split; [reflexivity|]).
    split; [left; reflexivity|]. exists 3%nat. split; [lia | reflexivity]. }
  destruct (toLocaleTimeString_now w4) as [t1 w5] eqn:Hlog2.
  destruct (isolated (REC (first :: rest) (Some newDna)) w5)
    as [o4 [w6 a6 tr6]] eqn:E4.
  as_gateway. invoked_of E4.
  destruct o4 as [[m|m]|recs].
  { quota_message_of E4.
    ingest_leaf cleanedData headers w0 a0 tr0.
    rewrite !invoked_app, Hi, Hi0, Hi1, Hi2, <- !app_assoc.
    do 3 (split; [reflexivity|]).
    split; [right; reflexivity|]. exists 4%nat. split; [lia | reflexivity]. }
  { ingest_leaf cleanedData headers w0 a0 tr0.
    rewrite !invoked_app, Hi, Hi0, Hi1, Hi2, <- !app_assoc.
    do 3 (split; [reflexivity|]).
    split; [left; reflexivity|]. exists 4%nat. split; [lia | reflexivity]. }
  ingest_leaf cleanedData headers w0 a0 tr0.
  rewrite !invoked_app, Hi, Hi0, Hi1, Hi2, <- !app_assoc.
  do 3 (split; [reflexivity|]).
  split; [left; reflexivity|]. exists 4%nat. split; [lia | reflexivity].
Qed.

(** X11.  An ingestion run in which the four operations succeed and
    discovery returns at least one segment: the new domain context, the
    discovered segments and the reviews are stored and persisted under
    ["neural_dna"], ["affinity_segments"] and ["active_reviews"], the first
    discovered segment is selected, the recommendations are stored, no
    error is shown and the run is back at [idle]. *)
Theorem ingestion_success (cleanedData : list json) (headers : list string)
    (st : St W) (newDna : gmap string json)
    (first : gmap string json) (rest : list (gmap string json))
    (reviews recs : json) :
  let sample := systematic_sample cleanedData in
  let r := ingest cleanedData headers st in
  let dna := isolated (DNA sample headers (learnedContext (app st)))
               (toLocaleTimeString_now (world st)).2 in
  let seg := isolated (SEG sample headers (Some newDna)) (world dna.2) in
  let rev := isolated (REV (first :: rest) (Some newDna)) (world seg.2) in
  let rec := isolated (REC (first :: rest) (Some newDna))
               (toLocaleTimeString_now (world rev.2)).2 in
  dna.1 = inr newDna ->
  seg.1 = inr (first :: rest) ->
  rev.1 = inr reviews ->
  rec.1 = inr recs ->
  r.1 = inr tt /\
  learnedContext (app r.2) = Some newDna /\
  segments (app r.2) = first :: rest /\
  activeReviews (app r.2) = reviews /\
  selectedSegmentId (app r.2) = first !! "id" /\
  recommendations (app r.2) = recs /\
  localStorage (app r.2) =
    <["active_reviews" := JSON_stringify reviews]>
      (<["affinity_segments" := JSON_stringify (JArr (JObj <$> first :: rest))]>
         (<["neural_dna" := JSON_stringify (JObj newDna)]>
            (localStorage (app st)))) /\
  error (app r.2) = None /\
  loading (app r.2) = false /\
  progressStep (app r.2) = idle /\
  invoked (trace r.2) = invoked (trace st) ++ ingestion_steps.
Proof.
  destruct st as [w0 a0 tr0]. cbn [world app trace]. cbv zeta.
  destruct (toLocaleTimeString_now w0) as [t0 w1] eqn:Hlog. cbn [fst snd].
  destruct (isolated (DNA (systematic_sample cleanedData) headers
                        (learnedContext a0)) w1)
    as [o [w2 a2 tr2]] eqn:E.
  cbn [fst snd world]. intros ->.
  destruct (isolated (SEG (systematic_sample cleanedData) headers
                        (Some newDna)) w2)
    as [o2 [w3 a3 tr3]] eqn:E2.
  cbn [fst snd world]. intros ->.
  destruct (isolated (REV (first :: rest) (Some newDna)) w3)
    as [o3 [w4 a4 tr4]] eqn:E3.
  cbn [fst snd world]. intros ->.
  destruct (toLocaleTimeString_now w4) as [t1 w5] eqn:Hlog2. cbn [fst snd].
  destruct (isolated (REC (first :: rest) (Some newDna)) w5)
    as [o4 [w6 a6 tr6]] eqn:E4.
  cbn [fst snd world]. intros ->.
  as_gateway. invoked_of E. invoked_of E2. invoked_of E3. invoked_of E4.
  ingest_leaf cleanedData headers w0 a0 tr0.
  rewrite !invoked_app, Hi, Hi0, Hi1, Hi2, <- !app_assoc.
  repeat split; reflexivity.
Qed.

(** X12.  A step of an ingestion run that fails with an error other than
    a [QuotaError] ends the run without any error being shown: the handler
    completes, the error state is empty, the run is back at [idle], and
    what the earlier steps stored stays. *)
Theorem ingestion_other_failure_is_silent (cleanedData : list json)
    (headers : list string) (st : St W) :
  let sample := systematic_sample cleanedData in
  let r := ingest cleanedData headers st in
  let dna := isolated (DNA sample headers (learnedContext (app st)))
               (toLocaleTimeString_now (world st)).2 in
  (forall m, dna.1 = inl (Other m) ->
     r.1 = inr tt /\ error (app r.2) = None /\ progressStep (app r.2) = idle /\
     learnedContext (app r.2) = learnedContext (app st) /\
     segments (app r.2) = segments (app st)) /\
  (forall newDna, dna.1 = inr newDna ->
     let seg := isolated (SEG sample headers (Some newDna)) (world dna.2) in
     (forall m, seg.1 = inl (Other m) ->
        r.1 = inr tt /\ error (app r.2) = None /\
        progressStep (app r.2) = idle /\
        learnedContext (app r.2) = Some newDna /\
        segments (app r.2) = segments (app st)) /\
     (forall discovered, seg.1 = inr discovered ->
        let rev := isolated (REV discovered (Some newDna)) (world seg.2) in
        (forall m, rev.1 = inl (Other m) ->
           r.1 = inr tt /\ error (app r.2) = None /\
           progressStep (app r.2) = idle /\
           learnedContext (app r.2) = Some newDna /\
           segments (app r.2) = segments (app st)) /\
        (forall reviews first rest,
           rev.1 = inr reviews ->
           discovered = first :: rest ->
           let rec := isolated (REC discovered (Some newDna))
                        (toLocaleTimeString_now (world rev.2)).2 in
           forall m, rec.1 = inl (Other m) ->
             r.1 = inr tt /\ error (app r.2) = None /\
             progressStep (app r.2) = idle /\
             learnedContext (app r.2) = Some newDna /\
             segments (app r.2) = discovered /\
             recommendations (app r.2) = recommendations (app st)))).
Proof.
  destruct st as [w0 a0 tr0]. cbn [world app trace]. cbv zeta.
  destruct (toLocaleTimeString_now w0) as [t0 w1] eqn:Hlog. cbn [fst snd].
  destruct (isolated (DNA (systematic_sample cleanedData) headers
                        (learnedContext a0)) w1)
    as [o [w2 a2 tr2]] eqn:E.
  cbn [fst snd world]. split.
  { intros m ->. as_gateway.
    ingest_leaf cleanedData headers w0 a0 tr0. auto. }
  intros newDna ->.
  destruct (isolated (SEG (systematic_sample cleanedData) headers
                        (Some newDna)) w2)
    as [o2 [w3 a3 tr3]] eqn:E2.
  cbn [fst snd world]. split.
  { intros m ->. as_gateway.
    ingest_leaf cleanedData headers w0 a0 tr0. auto. }
  intros discovered ->.
  destruct (isolated (REV discovered (Some newDna)) w3)
    as [o3 [w4 a4 tr4]] eqn:E3.
  cbn [fst snd world]. split.
  { intros m ->. as_gateway.
    ingest_leaf cleanedData headers w0 a0 tr0. auto. }
  intros reviews first rest -> ->.
  destruct (toLocaleTimeString_now w4) as [t1 w5] eqn:Hlog2. cbn [fst snd].
  destruct (isolated (REC (first :: rest) (Some newDna)) w5)
    as [o4 [w6 a6 tr6]] eqn:E4.
  cbn [fst snd world].
  intros m ->. as_gateway.
  ingest_leaf cleanedData headers w0 a0 tr0. auto 10.
Qed.

(** X13.  The model is shown at most the first fifteen records of the
    sample: two data sets whose samples agree on their first fifteen records
    give the same ingestion run, in every world. *)
Theorem ingestion_sees_fifteen (cleanedData cleanedData' : list json)
    (headers : list string) (st : St W) :
  take 15 (systematic_sample cleanedData) =
  take 15 (systematic_sample cleanedData') ->
  ingest cleanedData headers st = ingest cleanedData' headers st.
Proof.
  intros H15. pose proof (take_5_of_15 _ _ H15) as H5.
  unfold handleCustomDataLoaded, synthesizeDomainDNA, discoverSegments.
  cbv zeta. rewrite H5, H15. reflexivity.
Qed.

(** X14.  A deployment whose Generate-Campaign-Manifest call succeeds:
    every segment of the store whose id is the given one becomes the segment
    overlaid with the updates and with the manifest attached, so that it
    carries the manifest and the status [Active Strategy]; every other
    segment, and the number and order of segments, stay; the toast shows the
    name of the segment, its clearing is scheduled at 3000, and no error is
    shown. *)
Theorem deployment_success (id : string) (updates : gmap string json)
    (st : St W) (seg : gmap string json) (manifest : json) :
  let r := deploy id updates st in
  updates !! "status" = Some (JStr "Active Strategy") ->
  find_by_id (Some (JStr id)) (segments (app st)) = Some seg ->
  (isolated (MANIFEST seg (learnedContext (app st)))
     (toLocaleTimeString_now (world st)).2).1 = inr manifest ->
  r.1 = inr tt /\
  length (segments (app r.2)) = length (segments (app st)) /\
  (forall i s,
     segments (app st) !! i = Some s ->
     exists s',
       segments (app r.2) !! i = Some s' /\
       if strict_eq (s !! "id") (Some (JStr id))
       then s' = <["manifest" := manifest]> (updates ∪ s) /\
            s' !! "manifest" = Some manifest /\
            s' !! "status" = Some (JStr "Active Strategy")
       else s' = s) /\
  deploymentToast (app r.2) = seg !! "name" /\
  timers (app r.2) = timers (app st) ++ [(3000%Z, ClearDeploymentToast)] /\
  error (app r.2) = error (app st) /\
  invoked (trace r.2) = invoked (trace st) ++ [OpCampaignManifest].
Proof.
  destruct st as [w0 a0 tr0]. cbn [world app trace]. cbv zeta.
  intros Hstatus Hfind.
  destruct (toLocaleTimeString_now w0) as [t0 w1] eqn:Hlog. cbn [fst snd].
  destruct (isolated (MANIFEST seg (learnedContext a0)) w1)
    as [o [w2 a2 tr2]] eqn:E.
  cbn [fst snd]. intros ->.
  destruct (toLocaleTimeString_now w2) as [t1 w3] eqn:Hlog2.
  as_gateway. invoked_of E.
  evar (fin : St W).
  assert (Hrun : deploy id updates (mkSt w0 a0 tr0) = (inr tt, fin)).
  { unfold handleSegmentUpdate. replay.
    rewrite Hstatus, Hfind. cbn [strict_eq]. rewrite String.eqb_refl.
    replay. subst fin. reflexivity. }
  rewrite Hrun. subst fin. fields.
  rewrite invoked_app, Hi.
  split; [reflexivity|]. split; [apply length_fmap|].
  split; [|repeat split; reflexivity].
  intros i s Hs. eexists. split.
  { rewrite list_lookup_fmap, Hs. reflexivity. }
  unfold deploy_into.
  destruct (strict_eq (s !! "id") (Some (JStr id))); [|reflexivity].
  split; [reflexivity|]. split.
  - apply lookup_insert_eq.
  - rewrite lookup_insert_ne by discriminate.
    apply lookup_union_Some_l. exact Hstatus.
Qed.

(** X15.  An update whose status is not [Active Strategy] is applied at
    once and locally: no request is made, nothing is logged, and every
    segment with the given id is overlaid with the updates, a key of the
    updates taking the updated value and every other key, a manifest
    included, keeping its own; the other segments and the rest of the
    controller state stay. *)
Theorem plain_update (id : string) (updates : gmap string json) (st : St W) :
  let r := deploy id updates st in
  strict_eq (updates !! "status") (Some (JStr "Active Strategy")) = false ->
  r.1 = inr tt /\
  world r.2 = world st /\
  trace r.2 = trace st /\
  app r.2 = with_segments (segments (app r.2)) (app st) /\
  length (segments (app r.2)) = length (segments (app st)) /\
  (forall i s,
     segments (app st) !! i = Some s ->
     exists s',
       segments (app r.2) !! i = Some s' /\
       if strict_eq (s !! "id") (Some (JStr id))
       then forall k,
              s' !! k = match updates !! k with
                        | Some v => Some v
                        | None => s !! k
                        end
       else s' = s).
Proof.
  destruct st as [w0 a0 tr0]. cbn [world app trace]. cbv zeta.
  intros Hstatus.
  unfold handleSegmentUpdate. mrun. rewrite Hstatus. mrun. fields.
  do 4 (split; [reflexivity|]). split; [apply length_fmap|].
  intros i s Hs. eexists. split.
  { rewrite list_lookup_fmap, Hs. reflexivity. }
  unfold update_into.
  destruct (strict_eq (s !! "id") (Some (JStr id))); [|reflexivity].
  intros k. rewrite lookup_union.
  destruct (updates !! k), (s !! k); reflexivity.
Qed.


End ControllerMore.

(** ** The initial segment store and the active segment *)

Lemma coalesce_not_null (a : option json) (d : json) :
  d <> JNull -> coalesce a d <> JNull.
Proof. intros Hd. destruct a as [[]|]; cbn; congruence. Qed.

Lemma coalesce_keeps (v d : json) : v <> JNull -> coalesce (Some v) d = v.
Proof. intros Hv. destruct v; cbn; congruence. Qed.

Lemma coalesce_nullish (a : option json) (d : json) :
  nullish a -> coalesce a d = d.
Proof. intros [-> | ->]; reflexivity. Qed.

(** X17.  The initial segment store gives every segment a pattern
    stability index that is neither missing nor [null]: its own when it has
    one (a zero included), else its [confidenceScore] when it has one, else
    85.  Every other property is kept, and a segment that already has an
    index is returned as it is, so the map is idempotent. *)
Theorem initSegment_stability (s : gmap string json) :
  (exists v, initSegment s !! "patternStabilityIndex" = Some v /\ v <> JNull) /\
  (forall v, s !! "patternStabilityIndex" = Some v -> v <> JNull ->
     initSegment s = s) /\
  (forall v, nullish (s !! "patternStabilityIndex") ->
     s !! "confidenceScore" = Some v -> v <> JNull ->
     initSegment s !! "patternStabilityIndex" = Some v) /\
  (nullish (s !! "patternStabilityIndex") ->
   nullish (s !! "confidenceScore") ->
   initSegment s !! "patternStabilityIndex" = Some (JNum 85)) /\
  (forall k, k <> "patternStabilityIndex" -> initSegment s !! k = s !! k) /\
  initSegment (initSegment s) = initSegment s.
Proof.
  assert (Hnn : coalesce (s !! "patternStabilityIndex")
                  (coalesce (s !! "confidenceScore") (JNum 85)) <> JNull).
  { apply coalesce_not_null, coalesce_not_null. discriminate. }
  split; [|split; [|split; [|split; [|split]]]].
  - eexists. split; [apply lookup_insert_eq | exact Hnn].
  - intros v Hv Hnull. unfold initSegment.
    rewrite Hv, (coalesce_keeps _ _ Hnull). apply insert_id. exact Hv.
  - intros v Hpsi Hv Hnull. unfold initSegment.
    rewrite lookup_insert_eq, (coalesce_nullish _ _ Hpsi), Hv.
    rewrite (coalesce_keeps _ _ Hnull). reflexivity.
  - intros Hpsi Hconf. unfold initSegment.
    rewrite lookup_insert_eq, (coalesce_nullish _ _ Hpsi),
      (coalesce_nullish _ _ Hconf). reflexivity.
  - intros k Hk. unfold initSegment. apply lookup_insert_ne. congruence.
  - assert (Hlook : initSegment s !! "patternStabilityIndex" =
                    Some (coalesce (s !! "patternStabilityIndex")
                            (coalesce (s !! "confidenceScore") (JNum 85))))
      by apply lookup_insert_eq.
    unfold initSegment at 1. rewrite Hlook, (coalesce_keeps _ _ Hnn).
    apply insert_id. exact Hlook.
Qed.

(** X18.  The active segment is always a segment of the store: the first
    one with the selected id when there is one, else the first of the
    store; there is none exactly when the store is empty. *)
Theorem activeSegment_of_store (a : App) :
  (activeSegment a = None <-> segments a = []) /\
  (forall s, activeSegment a = Some s -> s ∈ segments a) /\
  (forall s, find_by_id (selectedSegmentId a) (segments a) = Some s ->
     activeSegment a = Some s /\
     strict_eq (s !! "id") (selectedSegmentId a) = true) /\
  (find_by_id (selectedSegmentId a) (segments a) = None ->
   activeSegment a = head (segments a)).
Proof.
  unfold activeSegment, find_by_id.
  destruct (List.find _ (segments a)) as [x|] eqn:Hfind.
  - apply List.find_some in Hfind as [Hin Heq].
    split; [|split; [|split]].
    + split; [discriminate|]. intros Hnil. rewrite Hnil in Hin. destruct Hin.
    + intros s [= <-]. apply list_elem_of_In. exact Hin.
    + intros s [= <-]. split; [reflexivity | exact Heq].
    + discriminate.
  - split; [|split; [|split]].
    + destruct (segments a); cbn; split; congruence.
    + intros s Hs. destruct (segments a) as [|y ys]; [discriminate|].
      cbn in Hs. injection Hs as <-. apply list_elem_of_here.
    + discriminate.
    + reflexivity.
Qed.

(** ** Reactive profiling, any run *)

Lemma prof_run_app s es es' :
  prof_run s (es ++ es') = prof_run (prof_run s es) es'.
Proof. unfold prof_run. apply foldl_app. Qed.

Lemma armed_not_due s0 t id s t' :
  armed s0 t id s -> (t' < t + 500)%Z -> not_due t' s.
Proof.
  intros (_ & _ & _ & _ & _ & _ & _ & _ & Htimer) Ht.
  unfold not_due. rewrite Htimer.
  destruct (active_for id (p_segments s0)); [exact Ht | exact I].
Qed.

(** The first change arms the timer. *)
Lemma armed_first s t a :
  p_view s = dashboard ->
  not_due t s ->
  (p_now s <= t)%Z ->
  strict_eq a (p_selectedSegmentId s) = false ->
  armed s t a (prof_step s (Select t a)).
Proof.
  intros Hview Hdue Hnow Ha. cbn [prof_step].
  pose proof (advance_not_due t s Hdue) as E.
  assert (F : p_now (advance t s) = t /\ p_view (advance t s) = dashboard /\
              p_selectedSegmentId (advance t s) = p_selectedSegmentId s /\
              p_segments (advance t s) = p_segments s /\
              p_activeReviews (advance t s) = p_activeReviews s /\
              p_learnedContext (advance t s) = p_learnedContext s /\
              p_inflight (advance t s) = p_inflight s /\
              p_issued (advance t s) = p_issued s).
  { rewrite E. cbn. repeat split; try assumption; lia. }
  destruct F as (N & V & S & G & R & C & I & Q).
  rewrite <- S in Ha.
  destruct (select_changed a (advance t s) Ha V)
    as (N1 & V1 & G1 & S1 & R1 & C1 & I1 & Q1 & T1).
  unfold armed, active_for.
  rewrite N1, V1, G1, S1, R1, C1, I1, Q1, T1, N, G, R, C, I, Q. auto 10.
Qed.

(** A further change within the window re-arms it. *)
Lemma armed_step s0 t id s t' id' :
  armed s0 t id s ->
  (t <= t' < t + 500)%Z ->
  strict_eq id' id = false ->
  armed s0 t' id' (prof_step s (Select t' id')).
Proof.
  intros Harmed Ht Hid.
  pose proof (armed_not_due s0 t id s t' Harmed ltac:(lia)) as Hdue.
  destruct Harmed as (V & N & S & G & R & C & I & Q & _).
  assert (Hfirst : armed s t' id' (prof_step s (Select t' id'))).
  { apply armed_first; [exact V | exact Hdue | lia | rewrite S; exact Hid]. }
  destruct Hfirst as (V1 & N1 & S1 & G1 & R1 & C1 & I1 & Q1 & T1).
  unfold armed.
  rewrite V1, N1, S1, G1, R1, C1, I1, Q1, T1, G, R, C, I, Q. auto 10.
Qed.

Lemma armed_run s0 rest :
  forall s t id,
    armed s0 t id s ->
    rapid t id rest ->
    armed s0 (default (t, id) (last rest)).1 (default (t, id) (last rest)).2
      (prof_run s (selects rest)).
Proof.
  induction rest as [|[t' id'] rest IH]; intros s t id Harmed Hrapid.
  - exact Harmed.
  - destruct Hrapid as (Ht & Hid & Hrest).
    pose proof (armed_step s0 t id s t' id' Harmed Ht Hid) as Hnext.
    specialize (IH _ _ _ Hnext Hrest).
    rewrite last_cons. unfold selects, prof_run in *.
    cbn [fmap list_fmap foldl fst snd].
    destruct (last rest) as [[tl c]|]; exact IH.
Qed.

(** The armed timer runs when its time comes. *)
Lemma armed_fire s0 t id s T seg :
  armed s0 t id s ->
  active_for id (p_segments s0) = Some seg ->
  (t + 500 <= T)%Z ->
  p_issued (prof_step s (Tick T)) =
    p_issued s0 ++ [ReqPersona seg (p_learnedContext s0);
                    ReqFriction seg (p_activeReviews s0)] /\
  p_inflight (prof_step s (Tick T)) = p_inflight s0 ++ [seg] /\
  p_timer (prof_step s (Tick T)) = None /\
  p_selectedSegmentId (prof_step s (Tick T)) = id.
Proof.
  intros (V & N & S & G & R & C & I & Q & Htimer) Hact HT.
  cbn [prof_step]. unfold advance. rewrite Htimer, Hact.
  assert ((t + 500 <=? T)%Z = true) as -> by (apply Z.leb_le; lia).
  cbn. rewrite Q, I, S. auto.
Qed.

(** X19.  Debounce, any number of changes.  On the dashboard, a first
    selection change followed by any number of further changes, each less
    than 500 after the one before, the last one selecting a segment of the
    store: no request is issued while the changes go on, and once 500 have
    passed after the last change exactly one pair is issued,
    Get-Persona-Details and Analyze-Friction for the segment selected
    last. *)
Theorem debounce_rapid_changes (s : Prof) (t1 : Z) (a : option json)
    (rest : list (Z * option json)) (T : Z) (seg : gmap string json) :
  let final := default (t1, a) (last rest) in
  let changes := selects ((t1, a) :: rest) in
  p_view s = dashboard ->
  not_due t1 s ->
  (p_now s <= t1)%Z ->
  strict_eq a (p_selectedSegmentId s) = false ->
  rapid t1 a rest ->
  find_by_id final.2 (p_segments s) = Some seg ->
  (final.1 + 500 <= T)%Z ->
  p_issued (prof_run s changes) = p_issued s /\
  p_issued (prof_run s (changes ++ [Tick T])) =
    p_issued s ++ [ReqPersona seg (p_learnedContext s);
                   ReqFriction seg (p_activeReviews s)] /\
  p_inflight (prof_run s (changes ++ [Tick T])) = p_inflight s ++ [seg] /\
  p_timer (prof_run s (changes ++ [Tick T])) = None /\
  p_selectedSegmentId (prof_run s (changes ++ [Tick T])) = final.2.
Proof.
  cbv zeta. intros Hview Hdue Hnow Ha Hrapid Hfind HT.
  pose proof (armed_first s t1 a Hview Hdue Hnow Ha) as H1.
  pose proof (armed_run s rest _ _ _ H1 Hrapid) as Hn.
  assert (Hrun : prof_run s (selects ((t1, a) :: rest)) =
                 prof_run (prof_step s (Select t1 a)) (selects rest))
    by reflexivity.
  split.
  - rewrite Hrun. destruct Hn as (_ & _ & _ & _ & _ & _ & _ & Q & _). exact Q.
  - rewrite prof_run_app, Hrun.
    apply (armed_fire s _ _ _ T seg Hn); [|exact HT].
    unfold active_for. rewrite Hfind. reflexivity.
Qed.

(** One event issues nothing or one pair. *)
Lemma advance_issued t s :
  p_issued (advance t s) = p_issued s \/
  exists c, p_timer s = Some c /\
    p_issued (advance t s) =
      p_issued s ++ [ReqPersona (cap_segment c.2) (cap_context c.2);
                     ReqFriction (cap_segment c.2) (cap_reviews c.2)].
Proof.
  unfold advance. destruct (p_timer s) as [[due c]|]; [|left; reflexivity].
  destruct (due <=? t)%Z; [|left; reflexivity].
  right. exists (due, c). split; reflexivity.
Qed.

Lemma select_issued id s : p_issued (select id s) = p_issued s.
Proof.
  unfold select. destruct (strict_eq id (p_selectedSegmentId s)); [reflexivity|].
  unfold run_effect. cbn [p_view].
  destruct (p_activeSegment _); [destruct (p_view s)|]; reflexivity.
Qed.

Lemma settle_issued k o s : p_issued (settle k o s) = p_issued s.
Proof. unfold settle. destruct (p_inflight s !! k); reflexivity. Qed.

Lemma prof_step_issued s e :
  p_issued (prof_step s e) = p_issued s \/
  exists seg ctx reviews,
    p_issued (prof_step s e) =
      p_issued s ++ [ReqPersona seg ctx; ReqFriction seg reviews].
Proof.
  assert (H : forall t,
             p_issued (advance t s) = p_issued s \/
             exists seg ctx reviews,
               p_issued (advance t s) =
               p_issued s ++ [ReqPersona seg ctx; ReqFriction seg reviews]).
  { intros t. destruct (advance_issued t s) as [H | (c & _ & H)];
      [left; exact H | right; eauto]. }
  destruct e as [t id | t | t k o]; cbn [prof_step].
  - rewrite select_issued. apply H.
  - apply H.
  - rewrite settle_issued. apply H.
Qed.

(** X20.  Whatever the events, the requests of the profiling flow are
    only ever added, and added in pairs: Get-Persona-Details then
    Analyze-Friction for one and the same segment.  A run never issues one
    of the two without the other and never withdraws a request. *)
Theorem profiling_requests_in_pairs (s : Prof) (es : list prof_event) :
  request_pairs (p_issued s) ->
  request_pairs (p_issued (prof_run s es)) /\
  exists added,
    p_issued (prof_run s es) = p_issued s ++ added /\ request_pairs added.
Proof.
  revert s. induction es as [|e es IH]; intros s Hs.
  - split; [exact Hs|]. exists []. rewrite app_nil_r. split; [reflexivity|].
    constructor.
  - change (prof_run s (e :: es)) with (prof_run (prof_step s e) es).
    assert (Hstep : request_pairs (p_issued (prof_step s e)) /\
                    exists add1, p_issued (prof_step s e) = p_issued s ++ add1 /\
                                 request_pairs add1).
    { destruct (prof_step_issued s e) as [-> | (seg & ctx & reviews & ->)].
      - split; [exact Hs|]. exists []. rewrite app_nil_r.
        split; [reflexivity | constructor].
      - split; [constructor; exact Hs|].
        exists [ReqPersona seg ctx; ReqFriction seg reviews].
        split; [reflexivity|]. apply (pairs_snoc [] seg ctx reviews). constructor. }
    destruct Hstep as (Hp & add1 & E1 & P1).
    destruct (IH _ Hp) as (Hfinal & add2 & E2 & P2).
    split; [exact Hfinal|].
    exists (add1 ++ add2). split.
    + rewrite E2, E1, <- app_assoc. reflexivity.
    + clear - P1 P2. induction P2 as [|issued seg ctx reviews _ IH2].
      * rewrite app_nil_r. exact P1.
      * rewrite app_assoc. constructor. exact IH2.
Qed.

(** X21.  On the landing view, with no timer pending, no event ever makes
    the profiling flow issue a request or arm a timer. *)
Theorem landing_issues_nothing (s : Prof) (es : list prof_event) :
  p_view s = landing ->
  p_timer s = None ->
  p_issued (prof_run s es) = p_issued s /\
  p_timer (prof_run s es) = None /\
  p_view (prof_run s es) = landing.
Proof.
  revert s. induction es as [|e es IH]; intros s Hview Htimer; [auto|].
  change (prof_run s (e :: es)) with (prof_run (prof_step s e) es).
  assert (Hadv : forall t, p_issued (advance t s) = p_issued s /\
                           p_timer (advance t s) = None /\
                           p_view (advance t s) = landing).
  { intros t. unfold advance. rewrite Htimer. cbn. auto. }
  assert (Hstep : p_issued (prof_step s e) = p_issued s /\
                  p_timer (prof_step s e) = None /\
                  p_view (prof_step s e) = landing).
  { destruct e as [t id | t | t k o]; cbn [prof_step];
      destruct (Hadv t) as (Q & Tm & V).
    - unfold select. destruct (strict_eq id _); [auto|].
      unfold run_effect. cbn [p_view]. rewrite V.
      destruct (p_activeSegment _); cbn; auto.
    - auto.
    - unfold settle. destruct (p_inflight _ !! k); cbn; auto. }
  destruct Hstep as (Q & Tm & V).
  destruct (IH _ V Tm) as (Q' & Tm' & V').
  rewrite Q', Q. auto.
Qed.

Lemma advance_profile t s :
  p_personaDetails (advance t s) = p_personaDetails s /\
  p_frictionData (advance t s) = p_frictionData s /\
  p_error (advance t s) = p_error s.
Proof.
  unfold advance. destruct (p_timer s) as [[due c]|]; [|cbn; auto].
  destruct (due <=? t)%Z; cbn; auto.
Qed.

(** X22.  A pair that settles with a failure never changes the persona or
    the friction cell; it shows the quota error when the failure is a
    [QuotaError] and leaves the error state alone otherwise; and, as for any
    settlement, the loading flag goes off even when a timer or another pair
    is still pending.  A settlement for a pair that is not in flight changes
    nothing. *)
Theorem settle_failure (s : Prof) (t : Z) (k : nat) (e : thrown) :
  let s' := prof_step s (Settle t k (inl e)) in
  (forall seg, p_inflight (advance t s) !! k = Some seg ->
     p_personaDetails s' = p_personaDetails s /\
     p_frictionData s' = p_frictionData s /\
     p_error s' =
       match e with
       | QuotaError message => Some (quota, message)
       | Other _ => p_error s
       end /\
     p_profilingLoading s' = false /\
     p_timer s' = p_timer (advance t s) /\
     p_inflight s' = delete k (p_inflight (advance t s))) /\
  (p_inflight (advance t s) !! k = None -> s' = advance t s).
Proof.
  cbv zeta. cbn [prof_step]. unfold settle.
  destruct (advance_profile t s) as (P & F & Er).
  split.
  - intros seg Hk. rewrite Hk.
    cbn [p_personaDetails p_frictionData p_error p_profilingLoading p_timer
         p_inflight].
    rewrite P, F. destruct e; rewrite ?Er; auto 10.
  - intros Hk. rewrite Hk. reflexivity.
Qed.

(** ** The uploader *)

Lemma split_nonempty sep s : split sep s <> [].
Proof.
  destruct s as [|c s]; cbn; [discriminate|].
  destruct (Ascii.eqb c sep); [discriminate|].
  destruct (split sep s); discriminate.
Qed.

Lemma fill_row_dom values headers :
  forall i obj h,
    h ∈ dom (fill_row values i headers obj) <->
    (h ∈ headers /\ h <> "__proto__") \/ h ∈ dom obj.
Proof.
  induction headers as [|h0 rest IH]; intros i obj h; cbn [fill_row].
  - set_solver.
  - rewrite IH. destruct (String.eqb h0 "__proto__") eqn:E.
    + apply String.eqb_eq in E. subst h0. set_solver.
    + apply String.eqb_neq in E. rewrite dom_insert_L. set_solver.
Qed.

Lemma fill_row_other values headers h :
  h ∉ headers ->
  forall i obj, fill_row values i headers obj !! h = obj !! h.
Proof.
  induction headers as [|h0 rest IH]; intros Hh i obj; cbn [fill_row];
    [reflexivity|].
  rewrite IH by set_solver.
  destruct (String.eqb h0 "__proto__"); [reflexivity|].
  apply lookup_insert_ne. set_solver.
Qed.

Lemma fill_row_lookup values headers :
  forall i j obj h,
    headers !! j = Some h ->
    h <> "__proto__" ->
    h ∉ drop (S j) headers ->
    fill_row values i headers obj !! h = Some (trim <$> values !! (i + j)%nat).
Proof.
  induction headers as [|h0 rest IH]; intros i j obj h Hj Hp Hlast;
    [discriminate|].
  cbn [fill_row]. destruct j as [|j].
  - injection Hj as ->. cbn in Hlast. rewrite drop_0 in Hlast.
    apply String.eqb_neq in Hp. rewrite Hp.
    rewrite (fill_row_other _ _ _ Hlast), lookup_insert_eq.
    rewrite Nat.add_0_r. reflexivity.
  - cbn in Hj, Hlast. rewrite (IH (S i) j _ h Hj Hp Hlast).
    replace (S i + j)%nat with (i + S j)%nat by lia. reflexivity.
Qed.

Lemma fill_row_proto values headers :
  forall i obj,
    obj !! "__proto__" = None ->
    fill_row values i headers obj !! "__proto__" = None.
Proof.
  induction headers as [|h0 rest IH]; intros i obj Hobj; cbn [fill_row];
    [exact Hobj|].
  apply IH. destruct (String.eqb h0 "__proto__") eqn:E; [exact Hobj|].
  apply String.eqb_neq in E. rewrite lookup_insert_ne by congruence.
  exact Hobj.
Qed.

(** X23.  A CSV file always yields at least one header (the empty string
    for an empty first line) and at most one record per line after the
    first; a file of one line yields no record.  The keys of every record
    are exactly the header names, whatever the number of cells on its line,
    except that a header named [__proto__] gives no key. *)
Theorem csv_records_have_header_keys (content : string) :
  (1 <= length (csv_headers content))%nat /\
  (length (csv_data content) <= length (split newline content) - 1)%nat /\
  (forall row h, row ∈ csv_data content ->
     h ∈ dom row <-> h ∈ csv_headers content /\ h <> "__proto__") /\
  (length (split newline content) = 1%nat -> csv_data content = []).
Proof.
  split; [|split; [|split]].
  - unfold csv_headers. rewrite length_fmap.
    pose proof (split_nonempty comma (first_line (split newline content))).
    destruct (split comma _); [contradiction | cbn; lia].
  - unfold csv_data. rewrite length_fmap.
    etransitivity; [apply List.filter_length_le|].
    destruct (split newline content); cbn; lia.
  - unfold csv_data. intros row h Hrow.
    apply list_elem_of_fmap in Hrow as (line & -> & _).
    unfold csv_row. rewrite fill_row_dom, dom_empty_L. set_solver.
  - unfold csv_data. intros Hlen.
    destruct (split newline content) as [|l [|l' ls]]; cbn in *;
      [reflexivity | reflexivity | lia].
Qed.

(** X24.  The cell of a record under a header is the trimmed cell of its
    line at the position of the last column with that header: with a header
    that occurs twice the later column wins, a line that is too short gives
    [undefined] for the missing columns, and the cells beyond the headers
    are dropped.  A record never has an own [__proto__] property. *)
Theorem csv_row_cells (headers : list string) (line : string) :
  (forall j h,
     headers !! j = Some h ->
     h <> "__proto__" ->
     h ∉ drop (S j) headers ->
     csv_row headers line !! h = Some (trim <$> split comma line !! j) /\
     ((length (split comma line) <= j)%nat ->
      csv_row headers line !! h = Some None)) /\
  (forall h, h ∉ headers -> csv_row headers line !! h = None) /\
  csv_row headers line !! "__proto__" = None.
Proof.
  split; [|split].
  - intros j h Hj Hp Hlast. unfold csv_row.
    rewrite (fill_row_lookup _ _ 0 j ∅ h Hj Hp Hlast). cbn [Nat.add].
    split; [reflexivity|].
    intros Hshort. rewrite (lookup_ge_None_2 _ _ Hshort). reflexivity.
  - intros h Hh. unfold csv_row. rewrite (fill_row_other _ _ _ Hh).
    apply lookup_empty.
  - unfold csv_row. apply fill_row_proto, lookup_empty.
Qed.

Lemma endsWith_json_not_csv (s : string) :
  endsWith s ".json" = true -> endsWith s ".csv" = false.
Proof.
  induction s as [|c s IH]; [discriminate|].
  cbn [endsWith]. rewrite orb_true_iff, orb_false_iff.
  intros [Heq | Htail].
  - apply String.eqb_eq in Heq. injection Heq as -> ->. split; reflexivity.
  - split; [|apply IH; exact Htail].
    destruct (String.eqb (String c s) ".csv") eqn:Heq; [|reflexivity].
    apply String.eqb_eq in Heq. injection Heq as _ ->. discriminate.
Qed.

Section UploaderFacts.

Variable read_json : string -> option (json * list string).

(** X25.  What the uploader does with a file is decided by the end of its
    name, compared exactly: a name that ends in neither [.json] nor [.csv]
    is rejected without being parsed ([DATA.CSV] is such a name); a name
    that ends in [.csv] is always loaded, with the records and headers of
    the CSV reading, and never found corrupt; only a [.json] file whose
    reading throws is found corrupt. *)
Theorem handleFiles_by_extension (name content : string) :
  (endsWith name ".json" = false -> endsWith name ".csv" = false ->
   handleFiles read_json name content = FormatUnsupported) /\
  (endsWith name ".csv" = true ->
   handleFiles read_json name content =
   LoadedCsv (csv_data content) (csv_headers content)) /\
  (handleFiles read_json name content = CorruptFileBuffer ->
   endsWith name ".json" = true /\ read_json content = None) /\
  handleFiles read_json "DATA.CSV" content = FormatUnsupported.
Proof.
  split; [|split; [|split]].
  - intros Hj Hc. unfold handleFiles. rewrite Hj, Hc. reflexivity.
  - intros Hc. unfold handleFiles.
    destruct (endsWith name ".json") eqn:Hj.
    + rewrite (endsWith_json_not_csv _ Hj) in Hc. discriminate.
    + rewrite Hc. reflexivity.
  - unfold handleFiles.
    destruct (endsWith name ".json") eqn:Hj, (endsWith name ".csv") eqn:Hc;
      cbn; try discriminate.
    + destruct (read_json content) as [[data headers]|]; [discriminate|auto].
    + destruct (read_json content) as [[data headers]|]; [discriminate|auto].
  - reflexivity.
Qed.

End UploaderFacts.

(** The small file read: the headers are trimmed, the blank line gives no
    record, and the short last line leaves [name] undefined. *)
Example csv_small :
  csv_headers demo_csv = ["id"; "name"] /\
  csv_data demo_csv =
    [ {[ "id" := Some "1"; "name" := Some "Ann" ]};
      {[ "id" := Some "2"; "name" := None ]} ].
Proof. split; vm_compute; reflexivity. Qed.

Example csv_empty : csv_headers "" = [""] /\ csv_data "" = [].
Proof. split; reflexivity. Qed.

(** ** The further properties at concrete inputs *)

Lemma withRetry_schedule_witness :
  (0 <= 3)%Z /\
  exists (n : nat) (w' : nat),
    (1 <= n <= Z.to_nat (3 + 1))%nat /\
    (withRetry (fun _ w => w) (flaky 2 (JStr "ok")) 3
       (mkSt 0%nat blank_app [])).2
      = mkSt w' blank_app ([] ++ backoff_trace n 0) /\
    (total_delay (backoff_trace n 0) <= (2 ^ 3 - 1) * 2000)%Z.
Proof.
  assert (H0 : (0 <= 3)%Z) by lia.
  split; [exact H0|].
  destruct (withRetry_schedule (fun _ w => w) (flaky 2 (JStr "ok")) 3
              (mkSt 0%nat blank_app []) H0)
    as (n & w' & Hn & Hr & _ & _ & _ & _ & Hle).
  exists n, w'. split; [exact Hn|]. split; [exact Hr | exact Hle].
Defined.

Lemma withRetry_settles_witness :
  settles_after (fun _ w => w) (flaky 2 (JStr "ok")) 2 0 0%nat
    (inr (JStr "ok")) 3%nat /\
  (Z.of_nat 2 <= 3)%Z /\
  withRetry (fun _ w => w) (flaky 2 (JStr "ok")) 3 (mkSt 0%nat blank_app []) =
    (inr (JStr "ok"), mkSt 3%nat blank_app ([] ++ backoff_trace 3 0)) /\
  delays (backoff_trace 3 0) = [2000; 4000]%Z.
Proof.
  assert (H1 : settles_after (fun _ w => w) (flaky 2 (JStr "ok")) 2 0 0%nat
                 (inr (JStr "ok")) 3%nat).
  { eapply settles_later; [reflexivity | reflexivity |].
    eapply settles_later; [reflexivity | reflexivity |].
    apply settles_now; [reflexivity | exact I]. }
  assert (H2 : (Z.of_nat 2 <= 3)%Z) by lia.
  split; [exact H1|]. split; [exact H2|].
  destruct (withRetry_settles (fun _ w => w) (flaky 2 (JStr "ok")) 3 2
              (mkSt 0%nat blank_app []) (inr (JStr "ok")) 3%nat H1 H2)
    as (R & _ & D).
  split; [exact R | exact D].
Defined.

Lemma withRetry_quota_only_when_exhausted_witness :
  (0 <= 3)%Z /\
  never_quota (flaky 10 (JStr "ok")) /\
  (withRetry (fun _ w => w) (flaky 10 (JStr "ok")) 3
     (mkSt 0%nat blank_app [])).1
    = inl (QuotaError "Gemini API Quota Exceeded.") /\
  rate_limited_through (fun _ w => w) (flaky 10 (JStr "ok")) (Z.to_nat 3) 0
    0%nat
    (world (withRetry (fun _ w => w) (flaky 10 (JStr "ok")) 3
              (mkSt 0%nat blank_app [])).2) /\
  delays (backoff_trace (Z.to_nat (3 + 1)) 0) =
    (fun a => 2 ^ a * 2000)%Z <$> seqZ 0 3.
Proof.
  assert (H0 : (0 <= 3)%Z) by lia.
  assert (H1 : never_quota (flaky 10 (JStr "ok"))).
  { intros w e. unfold flaky. destruct (Nat.ltb w 10); cbn [fst].
    - intros [= <-]. reflexivity.
    - discriminate. }
  assert (H2 : (withRetry (fun _ w => w) (flaky 10 (JStr "ok")) 3
                  (mkSt 0%nat blank_app [])).1
               = inl (QuotaError "Gemini API Quota Exceeded."))
    by (vm_compute; reflexivity).
  split; [exact H0|]. split; [exact H1|]. split; [exact H2|].
  destruct (withRetry_quota_only_when_exhausted (fun _ w => w)
              (flaky 10 (JStr "ok")) 3 (mkSt 0%nat blank_app []) _ H0 H1 H2)
    as (_ & Hrun & _ & _ & Hd).
  split; [exact Hrun | exact Hd].
Defined.

Lemma gateway_failure_kinds_witness :
  (gateway no_elapse scripted_generateContent (ReqPersona segA None)
     (parsed demo_JSON_parse)
     (demo_state [inl (Some "503 Service Unavailable")])).1
    = inl (Other (Some "503 Service Unavailable")) /\
  (Other (Some "503 Service Unavailable")
     = QuotaError "Gemini API Quota Exceeded." \/
   (isRateLimit (Other (Some "503 Service Unavailable")) = false /\
    exists w w',
      call_model scripted_generateContent (ReqPersona segA None)
        (parsed demo_JSON_parse) w
      = (inl (Other (Some "503 Service Unavailable")), w'))).
Proof.
  assert (H : (gateway no_elapse scripted_generateContent (ReqPersona segA None)
                 (parsed demo_JSON_parse)
                 (demo_state [inl (Some "503 Service Unavailable")])).1
              = inl (Other (Some "503 Service Unavailable")))
    by (vm_compute; reflexivity).
  split; [exact H|].
  exact (gateway_failure_kinds no_elapse scripted_generateContent
           (ReqPersona segA None) (parsed demo_JSON_parse)
           (demo_state [inl (Some "503 Service Unavailable")]) _ H).
Defined.

Lemma ingestion_success_witness :
  (isolated (synthesizeDomainDNA no_elapse scripted_generateContent
               demo_parse_dna demo_clock (systematic_sample []) [] None)
     [inr "retail"; inr "s1"; inr "reviews"; inr "plays"]).1 = inr demo_dna /\
  (isolated (discoverSegments no_elapse scripted_generateContent
               demo_parse_segments demo_clock (systematic_sample []) []
               (Some demo_dna))
     [inr "s1"; inr "reviews"; inr "plays"]).1 = inr [demo_segment] /\
  (isolated (generateContextualReviews no_elapse scripted_generateContent
               demo_JSON_parse [demo_segment] (Some demo_dna))
     [inr "reviews"; inr "plays"]).1 = inr (JStr "reviews") /\
  (isolated (generateMerchandisingRecommendations no_elapse
               scripted_generateContent demo_JSON_parse [demo_segment]
               (Some demo_dna))
     [inr "plays"]).1 = inr (JStr "plays") /\
  (demo_ingest [] []
     (demo_state [inr "retail"; inr "s1"; inr "reviews"; inr "plays"])).1
    = inr tt /\
  segments
    (app (demo_ingest [] []
            (demo_state [inr "retail"; inr "s1"; inr "reviews"; inr "plays"])).2)
    = [demo_segment] /\
  selectedSegmentId
    (app (demo_ingest [] []
            (demo_state [inr "retail"; inr "s1"; inr "reviews"; inr "plays"])).2)
    = demo_segment !! "id" /\
  recommendations
    (app (demo_ingest [] []
            (demo_state [inr "retail"; inr "s1"; inr "reviews"; inr "plays"])).2)
    = JStr "plays".
Proof.
  assert (H1 : (isolated (synthesizeDomainDNA no_elapse scripted_generateContent
                  demo_parse_dna demo_clock (systematic_sample []) [] None)
                [inr "retail"; inr "s1"; inr "reviews"; inr "plays"]).1
               = inr demo_dna)
    by (vm_compute; reflexivity).
  assert (H2 : (isolated (discoverSegments no_elapse scripted_generateContent
                  demo_parse_segments demo_clock (systematic_sample []) []
                  (Some demo_dna))
                [inr "s1"; inr "reviews"; inr "plays"]).1 = inr [demo_segment])
    by (vm_compute; reflexivity).
  assert (H3 : (isolated (generateContextualReviews no_elapse
                  scripted_generateContent demo_JSON_parse [demo_segment]
                  (Some demo_dna))
                [inr "reviews"; inr "plays"]).1 = inr (JStr "reviews"))
    by (vm_compute; reflexivity).
  assert (H4 : (isolated (generateMerchandisingRecommendations no_elapse
                  scripted_generateContent demo_JSON_parse [demo_segment]
                  (Some demo_dna))
                [inr "plays"]).1 = inr (JStr "plays"))
    by (vm_compute; reflexivity).
  split; [exact H1|]. split; [exact H2|]. split; [exact H3|].
  split; [exact H4|].
  destruct (ingestion_success no_elapse scripted_generateContent
              demo_JSON_parse demo_parse_dna demo_parse_segments
              demo_clock demo_local_clock demo_stringify demo_interpolate
              [] [] (demo_state [inr "retail"; inr "s1"; inr "reviews";
                                 inr "plays"])
              demo_dna demo_segment [] (JStr "reviews") (JStr "plays")
              H1 H2 H3 H4)
    as (Hr & _ & Hs & _ & Hid & Hrec & _).
  split; [exact Hr|]. split; [exact Hs|]. split; [exact Hid | exact Hrec].
Defined.

Lemma ingestion_sees_fifteen_witness :
  take 15 (systematic_sample (demo_records (JNum 1))) =
  take 15 (systematic_sample (demo_records (JNum 2))) /\
  demo_ingest (demo_records (JNum 1)) ["id"]
    (demo_state [inr "retail"; inr "s1"]) =
  demo_ingest (demo_records (JNum 2)) ["id"]
    (demo_state [inr "retail"; inr "s1"]).
Proof.
  assert (H : take 15 (systematic_sample (demo_records (JNum 1))) =
              take 15 (systematic_sample (demo_records (JNum 2))))
    by (vm_compute; reflexivity).
  split; [exact H|].
  exact (ingestion_sees_fifteen no_elapse scripted_generateContent
           demo_JSON_parse demo_parse_dna demo_parse_segments
           demo_clock demo_local_clock demo_stringify demo_interpolate
           (demo_records (JNum 1)) (demo_records (JNum 2)) ["id"]
           (demo_state [inr "retail"; inr "s1"]) H).
Defined.

Lemma deployment_success_witness :
  demo_updates !! "status" = Some (JStr "Active Strategy") /\
  find_by_id (Some (JStr "a")) (segments demo_app) = Some segA /\
  (demo_update "a" demo_updates (mkSt [inr "manifest"] demo_app [])).1
    = inr tt /\
  timers (app (demo_update "a" demo_updates
                 (mkSt [inr "manifest"] demo_app [])).2)
    = [] ++ [(3000%Z, ClearDeploymentToast)] /\
  invoked (trace (demo_update "a" demo_updates
                    (mkSt [inr "manifest"] demo_app [])).2)
    = [] ++ [OpCampaignManifest].
Proof.
  assert (H1 : demo_updates !! "status" = Some (JStr "Active Strategy"))
    by apply lookup_singleton_eq.
  assert (H2 : find_by_id (Some (JStr "a")) (segments demo_app) = Some segA)
    by exact find_segA.
  split; [exact H1|]. split; [exact H2|].
  destruct (deployment_success no_elapse scripted_generateContent
              demo_JSON_parse demo_local_clock demo_interpolate
              "a" demo_updates (mkSt [inr "manifest"] demo_app [])
              segA (JStr "manifest") H1 H2)
    as (Hr & _ & _ & _ & Ht & _ & Hi).
  - vm_compute. reflexivity.
  - split; [exact Hr|]. split; [exact Ht | exact Hi].
Defined.

Lemma plain_update_witness :
  strict_eq (demo_rename !! "status") (Some (JStr "Active Strategy")) = false /\
  (demo_update "a" demo_rename (mkSt [] demo_app [])).1 = inr tt /\
  world (demo_update "a" demo_rename (mkSt [] demo_app [])).2 = [] /\
  trace (demo_update "a" demo_rename (mkSt [] demo_app [])).2 = [] /\
  length (segments (app (demo_update "a" demo_rename
                           (mkSt [] demo_app [])).2)) = 2%nat.
Proof.
  assert (H : strict_eq (demo_rename !! "status")
                (Some (JStr "Active Strategy")) = false)
    by (vm_compute; reflexivity).
  split; [exact H|].
  destruct (plain_update no_elapse scripted_generateContent
              demo_JSON_parse demo_local_clock demo_interpolate
              "a" demo_rename (mkSt [] demo_app []) H)
    as (Hr & Hw & Ht & _ & Hl & _).
  split; [exact Hr|]. split; [exact Hw|]. split; [exact Ht | exact Hl].
Defined.


Lemma debounce_rapid_changes_witness :
  rapid 0 (Some (JStr "b"))
    [(100%Z, Some (JStr "a")); (200%Z, Some (JStr "b"));
     (650%Z, Some (JStr "a")); (900%Z, Some (JStr "b"))] /\
  find_by_id (Some (JStr "b")) (p_segments prof0) = Some segB /\
  p_issued
    (prof_run prof0
       (selects [(0%Z, Some (JStr "b")); (100%Z, Some (JStr "a"));
                 (200%Z, Some (JStr "b")); (650%Z, Some (JStr "a"));
                 (900%Z, Some (JStr "b"))] ++ [Tick 1400]))
  = [] ++ [ReqPersona segB None; ReqFriction segB JNull].
Proof.
  assert (H1 : rapid 0 (Some (JStr "b"))
                 [(100%Z, Some (JStr "a")); (200%Z, Some (JStr "b"));
                  (650%Z, Some (JStr "a")); (900%Z, Some (JStr "b"))]).
  { cbn [rapid]. repeat split; try lia; reflexivity. }
  assert (H2 : find_by_id (Some (JStr "b")) (p_segments prof0) = Some segB)
    by exact find_segB.
  split; [exact H1|]. split; [exact H2|].
  refine (proj1 (proj2 (debounce_rapid_changes prof0 0 (Some (JStr "b"))
                   [(100%Z, Some (JStr "a")); (200%Z, Some (JStr "b"));
                    (650%Z, Some (JStr "a")); (900%Z, Some (JStr "b"))]
                   1400 segB eq_refl I _ eq_refl H1 H2 _))); cbn; lia.
Defined.

Lemma profiling_requests_in_pairs_witness :
  request_pairs (p_issued prof0) /\
  request_pairs
    (p_issued
       (prof_run prof0
          [Select 0 (Some (JStr "b")); Tick 500; Select 600 (Some (JStr "a"));
           Settle 700 0 (inl (Other None)); Tick 1100])).
Proof.
  assert (H : request_pairs (p_issued prof0)) by exact pairs_nil.
  split; [exact H|].
  exact (proj1 (profiling_requests_in_pairs prof0
                  [Select 0 (Some (JStr "b")); Tick 500;
                   Select 600 (Some (JStr "a"));
                   Settle 700 0 (inl (Other None)); Tick 1100] H)).
Defined.

Lemma landing_issues_nothing_witness :
  p_view prof_landing = landing /\
  p_timer prof_landing = None /\
  p_issued
    (prof_run prof_landing
       [Select 0 (Some (JStr "b")); Tick 500; Tick 5000]) = [].
Proof.
  split; [reflexivity|]. split; [reflexivity|].
  exact (proj1 (landing_issues_nothing prof_landing
                  [Select 0 (Some (JStr "b")); Tick 500; Tick 5000]
                  eq_refl eq_refl)).
Defined.

Lemma ingestion_other_failure_is_silent_witness :
  (isolated (synthesizeDomainDNA no_elapse scripted_generateContent
               demo_parse_dna demo_clock (systematic_sample []) [] None)
     [inl (Some "503 Service Unavailable")]).1
    = inl (Other (Some "503 Service Unavailable")) /\
  (demo_ingest [] [] (demo_state [inl (Some "503 Service Unavailable")])).1
    = inr tt /\
  error (app (demo_ingest [] []
                (demo_state [inl (Some "503 Service Unavailable")])).2)
    = None /\
  progressStep (app (demo_ingest [] []
                (demo_state [inl (Some "503 Service Unavailable")])).2)
    = idle.
Proof.
  assert (H : (isolated (synthesizeDomainDNA no_elapse scripted_generateContent
                 demo_parse_dna demo_clock (systematic_sample []) [] None)
               [inl (Some "503 Service Unavailable")]).1
              = inl (Other (Some "503 Service Unavailable")))
    by (vm_compute; reflexivity).
  split; [exact H|].
  destruct (proj1 (ingestion_other_failure_is_silent no_elapse
                     scripted_generateContent demo_JSON_parse demo_parse_dna
                     demo_parse_segments demo_clock demo_local_clock
                     demo_stringify demo_interpolate [] []
                     (demo_state [inl (Some "503 Service Unavailable")]))
              _ H)
    as (Hr & He & Hp & _).
  split; [exact Hr|]. split; [exact He | exact Hp].
Defined.

Lemma settle_failure_witness :
  p_inflight (advance 700 prof_stale) !! 0%nat = Some segB /\
  p_personaDetails
    (prof_step prof_stale
       (Settle 700 0 (inl (QuotaError "Gemini API Quota Exceeded."))))
    = p_personaDetails prof_stale /\
  p_error
    (prof_step prof_stale
       (Settle 700 0 (inl (QuotaError "Gemini API Quota Exceeded."))))
    = Some (quota, "Gemini API Quota Exceeded.").
Proof.
  assert (H : p_inflight (advance 700 prof_stale) !! 0%nat = Some segB)
    by (vm_compute; reflexivity).
  split; [exact H|].
  destruct (proj1 (settle_failure prof_stale 700 0
                     (QuotaError "Gemini API Quota Exceeded.")) segB H)
    as (Hp & _ & He & _).
  split; [exact Hp | exact He].
Defined.
